(** * Notehooks: the time-windowed gates [useDebounce], [useThrottle] and
    [useThrottleCallback]

    A shallow embedding of the three React hooks of [useDebounce.ts] and
    [useThrottle.ts].

    - Timestamps and durations are the integer milliseconds of [Date.now()]
      and [setTimeout], modelled in [Z].
    - The refs and state cells of a hook instance form a record, threaded
      through every operation; a [now] argument is what [Date.now()] returns
      during the operation.
    - The closures handed to [setTimeout] are defunctionalised into the data
      they capture; the host's timer service is an explicit table of live
      timers, from which the host may fire any timer that is due.
    - An effect runs after a render when its dependency array changed, after
      the cleanup its previous run returned; a state update made by an effect
      is seen by one more render.
    - The calls of [setDebouncedValue], [setThrottledValue] and of the
      wrapped function are logged with their time, oldest first: these are
      the emissions of a gate. *)

From Stdlib Require Import ZArith List Bool Lia String.
From stdpp Require Import base option gmap.
Import ListNotations.
Open Scope Z_scope.

(** ** The host's timer service: [setTimeout] / [clearTimeout] *)

Module Host.
Section Host.
(** [C] is the type of (defunctionalised) timer callbacks. *)
Context {C : Type}.

Record timer := Timer { due : Z; action : C }.

(** Handles are the positive integers the host hands out, so a stored
    handle is always truthy in [if (timeoutRef.current)]. *)
Record host := MkHost { next_handle : nat; live : gmap nat timer }.

Definition boot : host := {| next_handle := 1%nat; live := ∅ |}.

(** [setTimeout(cb, ms)] called when the clock reads [now]: a negative
    [ms] is treated as [0] by the host. *)
Definition setTimeout (now : Z) (cb : C) (ms : Z) (h : host) : nat * host :=
  (next_handle h,
   {| next_handle := S (next_handle h);
      live := <[next_handle h := {| due := now + Z.max 0 ms; action := cb |}]> (live h) |}).

(** [clearTimeout(id)]: a handle that is no longer live is ignored. *)
Definition clearTimeout (id : nat) (h : host) : host :=
  {| next_handle := next_handle h; live := delete id (live h) |}.

(** The host dequeues timer [id] when the clock reads [now]: possible only
    for a live timer that is due. *)
Definition take (id : nat) (now : Z) (h : host) : option (C * host) :=
  match live h !! id with
  | Some tm => if due tm <=? now then Some (action tm, clearTimeout id h) else None
  | None => None
  end.

(** The live timer an ideal host fires next: least due time, then least
    handle. *)
Definition sooner (a b : nat * timer) : bool :=
  (due (snd a) <? due (snd b)) ||
  ((due (snd a) =? due (snd b)) && (fst a <=? fst b)%nat).

Definition earliest (h : host) : option (nat * timer) :=
  foldr (fun x acc =>
           match acc with
           | None => Some x
           | Some y => if sooner x y then Some x else Some y
           end) None (map_to_list (live h)).
End Host.
Arguments timer : clear implicits.
Arguments host : clear implicits.
End Host.

(** ** An ideal host: every timer fires exactly when it is due *)

Module Ideal.
Section Ideal.
Context {C St : Type}.
Variable timers_of : St -> Host.host C.
Variable fire : nat -> Z -> St -> option St.

(** Fire, in order, the live timers due at or before [t]. *)
Fixpoint advance_n (fuel : nat) (t : Z) (st : St) : St :=
  match fuel with
  | O => st
  | S fuel =>
      match Host.earliest (timers_of st) with
      | Some (id, tm) =>
          if Host.due tm <=? t then
            match fire id (Host.due tm) st with
            | Some st' => advance_n fuel t st'
            | None => st
            end
          else st
      | None => st
      end
  end.

Definition advance (t : Z) (st : St) : St :=
  advance_n (size (Host.live (timers_of st))) t st.
End Ideal.
End Ideal.

(** ** [useThrottle.ts]: the options of both throttle hooks *)

Module ThrottleOptions.
(** [UseThrottleOptions]: every field is optional. *)
Record UseThrottleOptions := Options {
  delay : option Z;
  leading : option bool;
  trailing : option bool
}.

(** [options = {}] *)
Definition empty : UseThrottleOptions := Options None None None.

(** [const { delay = 300, leading = true, trailing = true } = options] *)
Definition delay_of (o : UseThrottleOptions) : Z := default 300 (delay o).
Definition leading_of (o : UseThrottleOptions) : bool := default true (leading o).
Definition trailing_of (o : UseThrottleOptions) : bool := default true (trailing o).
End ThrottleOptions.

(** ** [useThrottleCallback] *)

Module ThrottleCallback.
Import ThrottleOptions.
Section Gate.
(** [F]: references to wrapped functions; [A]: argument lists. *)
Context {F A : Type}.

(** One call [callbackRef.current(...args)] made when the clock read [at_]. *)
Record call := Call { at_ : Z; fn : F; args : A }.

(** The timer closure captures nothing but the refs, which it reads when
    it runs: the action of a timer carries no data. *)
Record state := State {
  isThrottled : bool;
  lastExecutedRef : Z;
  timeoutRef : option nat;
  pendingArgsRef : option A;
  callbackRef : F;
  timers : Host.host unit;
  calls : list call
}.

(** First render: [useState(false)], [useRef(0)], [useRef(undefined)],
    [useRef(undefined)], [useRef(callback)]. *)
Definition mount (callback : F) : state :=
  {| isThrottled := false; lastExecutedRef := 0; timeoutRef := None;
     pendingArgsRef := None; callbackRef := callback;
     timers := Host.boot; calls := [] |}.

(** Every render: [callbackRef.current = callback]. *)
Definition render (callback : F) (st : state) : state :=
  {| isThrottled := isThrottled st; lastExecutedRef := lastExecutedRef st;
     timeoutRef := timeoutRef st; pendingArgsRef := pendingArgsRef st;
     callbackRef := callback;
     timers := timers st; calls := calls st |}.

(** [if (timeoutRef.current) clearTimeout(timeoutRef.current)] *)
Definition clear_ref (st : state) : Host.host unit :=
  match timeoutRef st with
  | Some id => Host.clearTimeout id (timers st)
  | None => timers st
  end.

Definition cancel (st : state) : state :=
  {| isThrottled := false; lastExecutedRef := lastExecutedRef st;
     timeoutRef := None; pendingArgsRef := None;
     callbackRef := callbackRef st;
     timers := clear_ref st; calls := calls st |}.

Definition flush (now : Z) (st : state) : state :=
  match timeoutRef st, pendingArgsRef st with
  | Some id, Some a =>
      {| isThrottled := false; lastExecutedRef := now;
         timeoutRef := None; pendingArgsRef := None;
         callbackRef := callbackRef st;
         timers := Host.clearTimeout id (timers st);
         calls := calls st ++ [Call now (callbackRef st) a] |}
  | _, _ => st
  end.

(** [leading && timeSinceLastExecution >= delay] *)
Definition leading_edge (o : UseThrottleOptions) (now : Z) (st : state) : bool :=
  leading_of o && (delay_of o <=? now - lastExecutedRef st).

Definition throttledCallback (o : UseThrottleOptions) (now : Z) (a : A)
    (st : state) : state :=
  let timeSinceLastExecution := now - lastExecutedRef st in
  if leading_edge o now st then
    {| isThrottled := false; lastExecutedRef := now;
       timeoutRef := None; pendingArgsRef := None;
       callbackRef := callbackRef st;
       timers := clear_ref st;
       calls := calls st ++ [Call now (callbackRef st) a] |}
  else if trailing_of o then
    let remainingDelay := delay_of o - timeSinceLastExecution in
    let '(id, h) := Host.setTimeout now tt (Z.max 0 remainingDelay) (clear_ref st) in
    {| isThrottled := true; lastExecutedRef := lastExecutedRef st;
       timeoutRef := Some id; pendingArgsRef := Some a;
       callbackRef := callbackRef st;
       timers := h; calls := calls st |}
  else st.

(** The body of the timer closure, run when the clock reads [now]. *)
Definition on_timeout (now : Z) (h : Host.host unit) (st : state) : state :=
  match pendingArgsRef st with
  | Some a =>
      {| isThrottled := false; lastExecutedRef := now;
         timeoutRef := None; pendingArgsRef := None;
         callbackRef := callbackRef st;
         timers := h;
         calls := calls st ++ [Call now (callbackRef st) a] |}
  | None =>
      {| isThrottled := false; lastExecutedRef := lastExecutedRef st;
         timeoutRef := None; pendingArgsRef := None;
         callbackRef := callbackRef st;
         timers := h; calls := calls st |}
  end.

(** The host fires timer [id] at time [now]. *)
Definition fire (id : nat) (now : Z) (st : state) : option state :=
  match Host.take id now (timers st) with
  | Some (_, h) => Some (on_timeout now h st)
  | None => None
  end.

(** Unmount: the cleanup of the last effect. *)
Definition unmount (st : state) : state :=
  {| isThrottled := isThrottled st; lastExecutedRef := lastExecutedRef st;
     timeoutRef := timeoutRef st; pendingArgsRef := pendingArgsRef st;
     callbackRef := callbackRef st;
     timers := clear_ref st; calls := calls st |}.

(** Renders with the function references [fs], in that order. *)
Definition renders (fs : list F) (st : state) : state :=
  fold_left (fun st f => render f st) fs st.

(** The gate on an ideal host: the clock advances to [t], then the
    throttled function is called with [a]. *)
Definition advance : Z -> state -> state := Ideal.advance timers fire.

Fixpoint run (o : UseThrottleOptions) (evs : list (Z * A)) (st : state) : state :=
  match evs with
  | [] => st
  | (t, a) :: evs => run o evs (throttledCallback o t a (advance t st))
  end.

(** The two shapes of a gate: no timer live, the last call of the wrapped
    function made at [last]; or one timer live, due at [due], with the
    pending arguments [a].  [n] is the next handle of the host. *)
Definition idle_gate (last : Z) (n : nat) (f : F) (cs : list call) : state :=
  {| isThrottled := false; lastExecutedRef := last; timeoutRef := None;
     pendingArgsRef := None; callbackRef := f;
     timers := Host.MkHost n ∅; calls := cs |}.

Definition pending_gate (last : Z) (n : nat) (due : Z) (a : A) (f : F)
    (cs : list call) : state :=
  {| isThrottled := true; lastExecutedRef := last; timeoutRef := Some n;
     pendingArgsRef := Some a; callbackRef := f;
     timers := Host.MkHost (S n) {[ n := Host.Timer due tt ]}; calls := cs |}.

(** The refs, the flag and the timer table agree: either a trailing call
    is pending (one live timer, its handle in [timeoutRef], arguments
    stored, [isThrottled] set) or nothing is. *)
Definition coherent (st : state) : Prop :=
  match timeoutRef st with
  | Some id =>
      (exists tm, Host.live (timers st) = {[ id := tm ]}) /\
      is_Some (pendingArgsRef st) /\ isThrottled st = true
  | None =>
      Host.live (timers st) = ∅ /\
      pendingArgsRef st = None /\ isThrottled st = false
  end.

(** The states of a mounted gate: renders, calls of the three functions
    the hook returns, and timers fired by the host, in any order and at any
    times. *)
Inductive reachable : state -> Prop :=
| reach_mount f : reachable (mount f)
| reach_render f st : reachable st -> reachable (render f st)
| reach_call o now a st : reachable st -> reachable (throttledCallback o now a st)
| reach_cancel st : reachable st -> reachable (cancel st)
| reach_flush now st : reachable st -> reachable (flush now st)
| reach_fire id now st st' :
    reachable st -> fire id now st = Some st' -> reachable st'.
End Gate.
Arguments state : clear implicits.
Arguments call : clear implicits.
End ThrottleCallback.

(** ** [useThrottle] *)

Module ThrottleValue.
Import ThrottleOptions.
Section Gate.
(** [T]: the throttled values, compared by the dependency array. *)
Context {T : Type} `{EqDecision T}.

(** The timer closure captures the [value] of the render that scheduled
    it.  [deps] is the dependency array of the last run of the effect,
    [cleanup] tells whether that run returned its cleanup function, and
    [emitted] lists the calls of [setThrottledValue]. *)
Record state := State {
  throttledValue : T;
  lastExecutedRef : Z;
  timeoutRef : option nat;
  isFirstCallRef : bool;
  deps : option (T * Z * bool * bool);
  cleanup : bool;
  timers : Host.host T;
  emitted : list (Z * T)
}.

(** [useState(value)], [useRef(0)], [useRef(undefined)], [useRef(true)]. *)
Definition init (value : T) : state :=
  {| throttledValue := value; lastExecutedRef := 0; timeoutRef := None;
     isFirstCallRef := true; deps := None; cleanup := false;
     timers := Host.boot; emitted := [] |}.

(** [if (timeoutRef.current) clearTimeout(timeoutRef.current)] *)
Definition clear_ref (st : state) : Host.host T :=
  match timeoutRef st with
  | Some id => Host.clearTimeout id (timers st)
  | None => timers st
  end.

(** [(leading && isFirstCallRef.current) ||
     (leading && timeSinceLastExecution >= delay)] *)
Definition leading_edge (o : UseThrottleOptions) (now : Z) (st : state) : bool :=
  (leading_of o && isFirstCallRef st) ||
  (leading_of o && (delay_of o <=? now - lastExecutedRef st)).

(** The body of the effect, run when the clock reads [now]. *)
Definition effect (value : T) (o : UseThrottleOptions) (now : Z)
    (st : state) : state :=
  let timeSinceLastExecution := now - lastExecutedRef st in
  if leading_edge o now st then
    {| throttledValue := value; lastExecutedRef := now; timeoutRef := None;
       isFirstCallRef := false; deps := deps st; cleanup := false;
       timers := clear_ref st; emitted := emitted st ++ [(now, value)] |}
  else if trailing_of o then
    let remainingDelay := delay_of o - timeSinceLastExecution in
    let '(id, h) := Host.setTimeout now value remainingDelay (clear_ref st) in
    {| throttledValue := throttledValue st;
       lastExecutedRef := lastExecutedRef st; timeoutRef := Some id;
       isFirstCallRef := false; deps := deps st; cleanup := true;
       timers := h; emitted := emitted st |}
  else
    {| throttledValue := throttledValue st;
       lastExecutedRef := lastExecutedRef st; timeoutRef := timeoutRef st;
       isFirstCallRef := false; deps := deps st; cleanup := true;
       timers := timers st; emitted := emitted st |}.

(** Before the effect runs again, the cleanup of its previous run (when it
    returned one) clears the timer and leaves the handle in the ref. *)
Definition before_effect (d : T * Z * bool * bool) (st : state) : state :=
  {| throttledValue := throttledValue st;
     lastExecutedRef := lastExecutedRef st; timeoutRef := timeoutRef st;
     isFirstCallRef := isFirstCallRef st; deps := Some d;
     cleanup := cleanup st;
     timers := if cleanup st then clear_ref st else timers st;
     emitted := emitted st |}.

(** A render of [useThrottle(value, options)] and its commit: the effect
    runs when [[value, delay, leading, trailing]] changed. *)
Definition useThrottle (value : T) (o : UseThrottleOptions) (now : Z)
    (st : state) : state :=
  let d := (value, delay_of o, leading_of o, trailing_of o) in
  if decide (deps st = Some d) then st
  else effect value o now (before_effect d st).

Definition mount (value : T) (o : UseThrottleOptions) (now : Z) : state :=
  useThrottle value o now (init value).

(** The host fires timer [id] at time [now]; the closure captured [v].  The
    render that [setThrottledValue] triggers finds the dependencies
    unchanged and runs no effect. *)
Definition fire (id : nat) (now : Z) (st : state) : option state :=
  match Host.take id now (timers st) with
  | Some (v, h) =>
      Some {| throttledValue := v; lastExecutedRef := now;
              timeoutRef := None; isFirstCallRef := isFirstCallRef st;
              deps := deps st; cleanup := cleanup st;
              timers := h; emitted := emitted st ++ [(now, v)] |}
  | None => None
  end.

(** Unmount: the cleanup the last run of the effect returned, if any. *)
Definition unmount (st : state) : state :=
  {| throttledValue := throttledValue st;
     lastExecutedRef := lastExecutedRef st; timeoutRef := timeoutRef st;
     isFirstCallRef := isFirstCallRef st; deps := deps st;
     cleanup := false;
     timers := if cleanup st then clear_ref st else timers st;
     emitted := emitted st |}.

(** The gate on an ideal host: the clock advances to [t], then the hook
    is rendered with [v]. *)
Definition advance : Z -> state -> state := Ideal.advance timers fire.

Fixpoint run (o : UseThrottleOptions) (evs : list (Z * T)) (st : state) : state :=
  match evs with
  | [] => st
  | (t, v) :: evs => run o evs (useThrottle v o t (advance t st))
  end.

(** The two shapes of a gate after its first render: no timer live (the
    ref may still hold the handle of a cleared timer); or one timer live,
    due at [due], whose closure captured [pv]. *)
Definition idle_gate (v : T) (last : Z) (ref : option nat)
    (d : option (T * Z * bool * bool)) (c : bool) (n : nat)
    (em : list (Z * T)) : state :=
  {| throttledValue := v; lastExecutedRef := last; timeoutRef := ref;
     isFirstCallRef := false; deps := d; cleanup := c;
     timers := Host.MkHost n ∅; emitted := em |}.

Definition pending_gate (v : T) (last : Z)
    (d : option (T * Z * bool * bool)) (n : nat) (due : Z) (pv : T)
    (em : list (Z * T)) : state :=
  {| throttledValue := v; lastExecutedRef := last; timeoutRef := Some n;
     isFirstCallRef := false; deps := d; cleanup := true;
     timers := Host.MkHost (S n) {[ n := Host.Timer due pv ]}; emitted := em |}.

(** At most one timer is live; its handle is the one in [timeoutRef] and
    the effect that armed it returned its cleanup. *)
Definition wf (st : state) : Prop :=
  Host.live (timers st) = ∅ \/
  (cleanup st = true /\
   exists id tm, timeoutRef st = Some id /\ Host.live (timers st) = {[ id := tm ]}).

(** The states of a mounted gate: renders and timers fired by the host, in
    any order and at any times. *)
Inductive reachable : state -> Prop :=
| reach_mount v o now : reachable (mount v o now)
| reach_render v o now st : reachable st -> reachable (useThrottle v o now st)
| reach_fire id now st st' :
    reachable st -> fire id now st = Some st' -> reachable st'.
End Gate.
Arguments state : clear implicits.
End ThrottleValue.

(** ** [useDebounce] *)

Module Debounce.
Record UseDebounceOptions := Options {
  delay : option Z;
  leading : option bool;
  maxWait : option Z
}.

(** [options = {}] *)
Definition empty : UseDebounceOptions := Options None None None.

(** [const { delay = 500, leading = false, maxWait } = options] *)
Definition delay_of (o : UseDebounceOptions) : Z := default 500 (delay o).
Definition leading_of (o : UseDebounceOptions) : bool := default false (leading o).

(** Truthiness of [maxWait] in [if (maxWait && !isFirstCall)]. *)
Definition truthy (m : option Z) : bool :=
  match m with
  | Some z => negb (z =? 0)
  | None => false
  end.

Section Gate.
Context {T : Type} `{EqDecision T}.

(** The two timer closures, each capturing the [value] of its render. *)
Inductive callback :=
| OnTimer (value : T)
| OnMaxWait (value : T).

(** The cleanup closure of the first effect captures both handles. *)
Record cleanup := Cleanup { timer : nat; maxWaitTimer : option nat }.

(** [props] are the arguments of the last render; [deps1], [cleanup1]
    belong to the first effect and [deps2] to the second; [emitted] lists
    the calls of [setDebouncedValue]. *)
Record state := State {
  debouncedValue : T;
  isFirstCall : bool;
  props : T * UseDebounceOptions;
  deps1 : option (T * Z * bool * option Z * bool);
  cleanup1 : option cleanup;
  deps2 : option (T * bool);
  timers : Host.host callback;
  emitted : list (Z * T)
}.

(** [useState(value)], [useState(true)]. *)
Definition init (value : T) (o : UseDebounceOptions) : state :=
  {| debouncedValue := value; isFirstCall := true; props := (value, o);
     deps1 := None; cleanup1 := None; deps2 := None;
     timers := Host.boot; emitted := [] |}.

Definition run_cleanup (c : option cleanup) (h : Host.host callback)
    : Host.host callback :=
  match c with
  | Some c =>
      let h := Host.clearTimeout (timer c) h in
      match maxWaitTimer c with
      | Some m => Host.clearTimeout m h
      | None => h
      end
  | None => h
  end.

(** The first effect, run for a render that saw [isFirstCall = first]. *)
Definition effect1 (value : T) (o : UseDebounceOptions) (first : bool)
    (now : Z) (st : state) : state :=
  let d := (value, delay_of o, leading_of o, maxWait o, first) in
  if decide (deps1 st = Some d) then st
  else
    let h := run_cleanup (cleanup1 st) (timers st) in
    if leading_of o && first then
      {| debouncedValue := value; isFirstCall := false; props := props st;
         deps1 := Some d; cleanup1 := None; deps2 := deps2 st;
         timers := h; emitted := emitted st ++ [(now, value)] |}
    else
      let '(t, h) := Host.setTimeout now (OnTimer value) (delay_of o) h in
      let '(m, h) :=
        if truthy (maxWait o) && negb first then
          let '(m, h) :=
            Host.setTimeout now (OnMaxWait value) (default 0 (maxWait o)) h in
          (Some m, h)
        else (None, h) in
      {| debouncedValue := debouncedValue st; isFirstCall := isFirstCall st;
         props := props st;
         deps1 := Some d; cleanup1 := Some (Cleanup t m); deps2 := deps2 st;
         timers := h; emitted := emitted st |}.

(** The second effect: [if (!leading) setIsFirstCall(false)]. *)
Definition effect2 (value : T) (o : UseDebounceOptions) (st : state) : state :=
  let d := (value, leading_of o) in
  if decide (deps2 st = Some d) then st
  else
    {| debouncedValue := debouncedValue st;
       isFirstCall := if leading_of o then isFirstCall st else false;
       props := props st;
       deps1 := deps1 st; cleanup1 := cleanup1 st; deps2 := Some d;
       timers := timers st; emitted := emitted st |}.

(** One render and its commit: both effects close over the state of this
    render; their state updates are seen by the next render. *)
Definition commit (now : Z) (st : state) : state :=
  let '(value, o) := props st in
  effect2 value o (effect1 value o (isFirstCall st) now st).

(** A state update made by an effect triggers one more render; after it
    nothing changes any more (lemma [db_commit_settled]). *)
Definition settle (now : Z) (st : state) : state :=
  commit now (commit now st).

Definition with_props (value : T) (o : UseDebounceOptions) (st : state) : state :=
  {| debouncedValue := debouncedValue st; isFirstCall := isFirstCall st;
     props := (value, o);
     deps1 := deps1 st; cleanup1 := cleanup1 st; deps2 := deps2 st;
     timers := timers st; emitted := emitted st |}.

(** A render of [useDebounce(value, options)] when the clock reads [now]. *)
Definition useDebounce (value : T) (o : UseDebounceOptions) (now : Z)
    (st : state) : state :=
  settle now (with_props value o st).

Definition mount (value : T) (o : UseDebounceOptions) (now : Z) : state :=
  settle now (init value o).

(** The bodies of the two timer closures. *)
Definition on_timeout (cb : callback) (now : Z) (h : Host.host callback)
    (st : state) : state :=
  match cb with
  | OnTimer v =>
      {| debouncedValue := v; isFirstCall := false; props := props st;
         deps1 := deps1 st; cleanup1 := cleanup1 st; deps2 := deps2 st;
         timers := h; emitted := emitted st ++ [(now, v)] |}
  | OnMaxWait v =>
      {| debouncedValue := v; isFirstCall := isFirstCall st; props := props st;
         deps1 := deps1 st; cleanup1 := cleanup1 st; deps2 := deps2 st;
         timers := h; emitted := emitted st ++ [(now, v)] |}
  end.

(** The host fires timer [id] at time [now]; the state updates of the
    closure trigger a render with the same props. *)
Definition fire (id : nat) (now : Z) (st : state) : option state :=
  match Host.take id now (timers st) with
  | Some (cb, h) => Some (settle now (on_timeout cb now h st))
  | None => None
  end.

(** Unmount: the cleanup of the first effect. *)
Definition unmount (st : state) : state :=
  {| debouncedValue := debouncedValue st; isFirstCall := isFirstCall st;
     props := props st;
     deps1 := deps1 st; cleanup1 := None; deps2 := deps2 st;
     timers := run_cleanup (cleanup1 st) (timers st); emitted := emitted st |}.

(** Every live timer is one of the two the cleanup closure will clear. *)
Definition tidy (st : state) : Prop :=
  forall id, is_Some (Host.live (timers st) !! id) ->
    exists c, cleanup1 st = Some c /\ (id = timer c \/ maxWaitTimer c = Some id).

(** Both effects have run for the props and the state of the last render,
    and [isFirstCall] is cleared. *)
Definition settled (st : state) : Prop :=
  isFirstCall st = false /\
  deps1 st = Some (fst (props st), delay_of (snd (props st)),
                   leading_of (snd (props st)), maxWait (snd (props st)), false) /\
  deps2 st = Some (fst (props st), leading_of (snd (props st))).

(** The states of a mounted gate: renders and timers fired by the host, in
    any order and at any times. *)
Inductive reachable : state -> Prop :=
| reach_mount v o now : reachable (mount v o now)
| reach_render v o now st : reachable st -> reachable (useDebounce v o now st)
| reach_fire id now st st' :
    reachable st -> fire id now st = Some st' -> reachable st'.

(** The gate on an ideal host: the clock advances to [t], then the hook
    is rendered with [v]. *)
Definition advance : Z -> state -> state := Ideal.advance timers fire.

Fixpoint run (o : UseDebounceOptions) (evs : list (Z * T)) (st : state) : state :=
  match evs with
  | [] => st
  | (t, v) :: evs => run o evs (useDebounce v o t (advance t st))
  end.

(** A burst of renders that follows a render with [v] at [t]: each comes
    less than [gap] after the one before and brings a new value. *)
Fixpoint burst_after (gap : Z) (t : Z) (v : T) (evs : list (Z * T)) : Prop :=
  match evs with
  | [] => True
  | (t', v') :: evs => t <= t' < t + gap /\ v' <> v /\ burst_after gap t' v' evs
  end.
End Gate.
Arguments state : clear implicits.
Arguments callback : clear implicits.
End Debounce.

(** ** Construction of a gate

    No path of the three hooks validates its options or throws: the first
    call of a hook always returns a gate. *)

Module Construction.
Inductive outcome (G : Type) :=
| Accepted (gate : G)
| Rejected.
Arguments Accepted {G} gate.
Arguments Rejected {G}.

Definition debounce {T : Type} `{EqDecision T} (value : T)
    (o : Debounce.UseDebounceOptions) (now : Z) : outcome (Debounce.state T) :=
  Accepted (Debounce.mount value o now).

Definition throttle {T : Type} `{EqDecision T} (value : T)
    (o : ThrottleOptions.UseThrottleOptions) (now : Z)
    : outcome (ThrottleValue.state T) :=
  Accepted (ThrottleValue.mount value o now).

Definition throttleCallback {F A : Type} (callback : F)
    (o : ThrottleOptions.UseThrottleOptions) : outcome (ThrottleCallback.state F A) :=
  Accepted (ThrottleCallback.mount callback).
End Construction.

(** ** The scenarios of the specification *)

Module Scenario.
Import ThrottleOptions.

(** [delay = 100, leading = true, trailing = true] *)
Definition config : UseThrottleOptions := Options (Some 100) (Some true) (Some true).

(** Payloads A to D at 0, 30, 60, 90 after the clock read [t0]. *)
Definition burst (t0 : Z) : list (Z * string) :=
  [(t0, "A"); (t0 + 30, "B"); (t0 + 60, "C"); (t0 + 90, "D")]%string.

(** The throttled function [f] is called with A to D, then with E at 130. *)
Definition callback_gate {F : Type} (f : F) (t0 : Z) : ThrottleCallback.state F string :=
  ThrottleCallback.run config (burst t0 ++ [(t0 + 130, "E"%string)])
    (ThrottleCallback.mount f).

(** The hook is first rendered with A, then with B to D, then with E. *)
Definition value_gate (t0 : Z) : ThrottleValue.state string :=
  ThrottleValue.run config (tl (burst t0) ++ [(t0 + 130, "E"%string)])
    (ThrottleValue.mount "A"%string config t0).

(** Debounce: [delay = 100, maxWait = 250]; the hook is mounted with "a"
    at 1000 and rendered with a new value every 50 ms from 1050 to 1400. *)
Definition debounce_config : Debounce.UseDebounceOptions :=
  Debounce.Options (Some 100) None (Some 250).

Definition changes : list (Z * string) :=
  [(1050, "b"); (1100, "c"); (1150, "d"); (1200, "e");
   (1250, "f"); (1300, "g"); (1350, "h"); (1400, "i")]%string.

Definition debounce_gate : Debounce.state string :=
  Debounce.run debounce_config changes (Debounce.mount "a"%string debounce_config 1000).
End Scenario.

(** ** Histories of a gate

    A mounted gate is driven by renders, by calls of the functions it
    returned and by the host firing timers.  A history lists these events in
    the order they happen; an event the host cannot perform (firing a timer
    that is not live or not yet due) leaves the gate as it is. *)

Module Spacing.
(** Each time of the list comes at least [d] after the one before. *)
Fixpoint spaced (d : Z) (ts : list Z) : Prop :=
  match ts with
  | [] => True
  | t :: rest =>
      match rest with
      | [] => True
      | t' :: _ => t + d <= t'
      end /\ spaced d rest
  end.
End Spacing.

Module ThrottleCallbackTrace.
Import ThrottleOptions ThrottleCallback.
Section Trace.
Context {F A : Type}.

Inductive event :=
| Render (f : F)
| Invoke (now : Z) (a : A)
| Cancel
| Flush (now : Z)
| Timeout (id : nat) (now : Z).

Definition is_flush (e : event) : bool :=
  match e with
  | Flush _ => true
  | _ => false
  end.

(** One event on a gate whose throttled function was made with options [o]. *)
Definition step (o : UseThrottleOptions) (st : state F A) (e : event) : state F A :=
  match e with
  | Render f => render f st
  | Invoke now a => throttledCallback o now a st
  | Cancel => cancel st
  | Flush now => flush now st
  | Timeout id now => default st (fire id now st)
  end.

Definition exec (o : UseThrottleOptions) (es : list event) (st : state F A)
    : state F A :=
  fold_left (step o) es st.

(** The times of the calls of the wrapped function, oldest first. *)
Definition call_times (st : state F A) : list Z := map at_ (calls st).

(** The anchor is the time of the latest call (0 before the first), the
    calls made so far are [delay] apart, and a live timer is not due before
    the window of the latest call has run out. *)
Definition paced (o : UseThrottleOptions) (st : state F A) : Prop :=
  coherent st /\
  lastExecutedRef st = List.last (call_times st) 0 /\
  Spacing.spaced (delay_of o) (call_times st) /\
  forall id tm, Host.live (timers st) !! id = Some tm ->
                lastExecutedRef st + delay_of o <= Host.due tm.
End Trace.
Arguments event : clear implicits.
End ThrottleCallbackTrace.

Module ThrottleValueTrace.
Import ThrottleOptions ThrottleValue.
Section Trace.
Context {T : Type} `{EqDecision T}.

Inductive event :=
| Render (v : T) (now : Z)
| Timeout (id : nat) (now : Z).

(** One event on a gate rendered with options [o] throughout. *)
Definition step (o : UseThrottleOptions) (st : state T) (e : event) : state T :=
  match e with
  | Render v now => useThrottle v o now st
  | Timeout id now => default st (fire id now st)
  end.

Definition exec (o : UseThrottleOptions) (es : list event) (st : state T) : state T :=
  fold_left (step o) es st.

(** The times and the values of the calls of [setThrottledValue]. *)
Definition emission_times (st : state T) : list Z := map fst (emitted st).
Definition emission_values (st : state T) : list T := map snd (emitted st).

(** The first-call flag is cleared, the anchor is the time of the latest
    emission (0 before the first), the emissions made so far are [delay]
    apart, and a live timer is not due before the window of the latest
    emission has run out. *)
Definition paced (o : UseThrottleOptions) (st : state T) : Prop :=
  wf st /\
  isFirstCallRef st = false /\
  lastExecutedRef st = List.last (emission_times st) 0 /\
  Spacing.spaced (delay_of o) (emission_times st) /\
  forall id tm, Host.live (timers st) !! id = Some tm ->
                lastExecutedRef st + delay_of o <= Host.due tm.
End Trace.
Arguments event : clear implicits.
End ThrottleValueTrace.

(** ** [useToggle] *)

Module Toggle.
(** [useToggle(initialValue = false)]: the state is the boolean itself. *)
Definition useToggle (initialValue : option bool) : bool := default false initialValue.

(** The four functions the hook returns. *)
Inductive action :=
| toggle
| setTrue
| setFalse
| setValue (newValue : bool).

Definition apply (value : bool) (a : action) : bool :=
  match a with
  | toggle => negb value
  | setTrue => true
  | setFalse => false
  | setValue newValue => newValue
  end.

Definition run (acts : list action) (value : bool) : bool := fold_left apply acts value.
End Toggle.

(** ** [useCountdown]

    Times are integer milliseconds; a [Date] is its [getTime()].  The hook
    is rendered with the same options throughout. *)

Module Countdown.
Section Hook.
(** [K]: references to completion callbacks. *)
Context {K : Type}.

Record UseTimerOptions := Options {
  targetDate : option Z;
  initialSeconds : option Z;
  onComplete : option K;
  autoStart : option bool;
  interval : option Z
}.

(** The argument of the hook: a number of seconds, a date, or a
    configuration object. *)
Inductive input :=
| Seconds (n : Z)
| Until (date : Z)
| Config (c : UseTimerOptions).

Definition config (options : input) : UseTimerOptions :=
  match options with
  | Seconds n => Options None (Some n) None None None
  | Until date => Options (Some date) None None None None
  | Config c => c
  end.

(** [initialSeconds = 0], [autoStart = true], [interval = 1000] *)
Definition initialSeconds_of (c : UseTimerOptions) : Z := default 0 (initialSeconds c).
Definition autoStart_of (c : UseTimerOptions) : bool := default true (autoStart c).
Definition interval_of (c : UseTimerOptions) : Z := default 1000 (interval c).

(** [Math.max(0, target - now)] *)
Definition calculateTimeLeft (target now : Z) : Z := Z.max 0 (target - now).

Definition getInitialTime (c : UseTimerOptions) (now : Z) : Z :=
  match targetDate c with
  | Some target => calculateTimeLeft target now
  | None => initialSeconds_of c * 1000
  end.

(** The intervals of the host: the handles handed out so far and those
    still running. *)
Record ticker := Ticker { next_id : nat; running : gset nat }.

(** [depsC] and [cleanupC] belong to the effect that owns the interval;
    [completions] lists the calls of the completion callback. *)
Record state := State {
  timeLeft : Z;
  isActive : bool;
  isCompleted : bool;
  intervalRef : option nat;
  onCompleteRef : option K;
  depsC : option (bool * bool * option Z * Z);
  cleanupC : bool;
  intervals : ticker;
  completions : list K
}.

(** [if (intervalRef.current) clearInterval(intervalRef.current)] *)
Definition clear_ref (st : state) : ticker :=
  match intervalRef st with
  | Some id => Ticker (next_id (intervals st)) (running (intervals st) ∖ {[ id ]})
  | None => intervals st
  end.

(** The effect that owns the interval, run for a render that saw
    [isActive = active] and [isCompleted = completed], after the cleanup of
    its previous run; it is skipped when its dependencies did not change. *)
Definition interval_effect (c : UseTimerOptions) (active completed : bool)
    (st : state) : state :=
  let d := (active, completed, targetDate c, interval_of c) in
  if decide (depsC st = Some d) then st
  else
    let tk := if cleanupC st then clear_ref st else intervals st in
    if negb active || completed then
      {| timeLeft := timeLeft st; isActive := isActive st;
         isCompleted := isCompleted st;
         intervalRef := None; onCompleteRef := onCompleteRef st;
         depsC := Some d; cleanupC := false;
         intervals :=
           match intervalRef st with
           | Some id => Ticker (next_id tk) (running tk ∖ {[ id ]})
           | None => tk
           end;
         completions := completions st |}
    else
      {| timeLeft := timeLeft st; isActive := isActive st;
         isCompleted := isCompleted st;
         intervalRef := Some (next_id tk); onCompleteRef := onCompleteRef st;
         depsC := Some d; cleanupC := true;
         intervals := Ticker (S (next_id tk)) ({[ next_id tk ]} ∪ running tk);
         completions := completions st |}.

(** The render a state update triggers. *)
Definition commit (c : UseTimerOptions) (st : state) : state :=
  interval_effect c (isActive st) (isCompleted st) st.

(** The effect that (re)starts the countdown: it runs after the first
    render. *)
Definition restart_effect (c : UseTimerOptions) (now : Z) (st : state) : state :=
  let newTime := getInitialTime c now in
  {| timeLeft := newTime;
     isActive := if autoStart_of c && (0 <? newTime) then true else isActive st;
     isCompleted := newTime =? 0;
     intervalRef := intervalRef st; onCompleteRef := onCompleteRef st;
     depsC := depsC st; cleanupC := cleanupC st;
     intervals := intervals st; completions := completions st |}.

(** The first render, its effects (which see the state of that render),
    and the render their state updates trigger. *)
Definition useCountdown (options : input) (now : Z) : state :=
  let c := config options in
  let st0 :=
    {| timeLeft := getInitialTime c now; isActive := autoStart_of c;
       isCompleted := false; intervalRef := None;
       onCompleteRef := onComplete c; depsC := None; cleanupC := false;
       intervals := Ticker 1 ∅; completions := [] |} in
  commit c (interval_effect c (isActive st0) (isCompleted st0) (restart_effect c now st0)).

(** The callback of the interval, run when the clock reads [now]. *)
Definition on_interval (c : UseTimerOptions) (now : Z) (st : state) : state :=
  let newTime :=
    match targetDate c with
    | Some target => calculateTimeLeft target now
    | None => Z.max 0 (timeLeft st - interval_of c)
    end in
  if newTime =? 0 then
    {| timeLeft := newTime; isActive := false; isCompleted := true;
       intervalRef := intervalRef st; onCompleteRef := onCompleteRef st;
       depsC := depsC st; cleanupC := cleanupC st;
       intervals := intervals st;
       completions :=
         match onCompleteRef st with
         | Some k => completions st ++ [k]
         | None => completions st
         end |}
  else
    {| timeLeft := newTime; isActive := isActive st; isCompleted := isCompleted st;
       intervalRef := intervalRef st; onCompleteRef := onCompleteRef st;
       depsC := depsC st; cleanupC := cleanupC st;
       intervals := intervals st; completions := completions st |}.

(** The host runs interval [id]: possible only while it is running. *)
Definition tick (c : UseTimerOptions) (id : nat) (now : Z) (st : state) : option state :=
  if decide (id ∈ running (intervals st)) then Some (commit c (on_interval c now st))
  else None.

Definition start (c : UseTimerOptions) (st : state) : state :=
  commit c
    {| timeLeft := timeLeft st;
       isActive := if isCompleted st then isActive st else true;
       isCompleted := isCompleted st;
       intervalRef := intervalRef st; onCompleteRef := onCompleteRef st;
       depsC := depsC st; cleanupC := cleanupC st;
       intervals := intervals st; completions := completions st |}.


Definition reset (c : UseTimerOptions) (now : Z) (st : state) : state :=
  let newTime := getInitialTime c now in
  commit c
    {| timeLeft := newTime; isActive := autoStart_of c && (0 <? newTime);
       isCompleted := newTime =? 0;
       intervalRef := intervalRef st; onCompleteRef := onCompleteRef st;
       depsC := depsC st; cleanupC := cleanupC st;
       intervals := intervals st; completions := completions st |}.

(** The host runs the interval of the gate, if one is running, at each of
    the times [nows]. *)
Definition beat (c : UseTimerOptions) (st : state) (now : Z) : state :=
  match intervalRef st with
  | Some id => default st (tick c id now st)
  | None => st
  end.

Definition beats (c : UseTimerOptions) (nows : list Z) (st : state) : state :=
  fold_left (beat c) nows st.
End Hook.
Arguments UseTimerOptions : clear implicits.
Arguments input : clear implicits.
Arguments state : clear implicits.

(** What the hook returns of the time left: [Math.floor(timeLeft / 1000)]
    and [formattedTime]; [%] is the remainder of JavaScript, which has the
    sign of the dividend. *)
Definition seconds_left (timeLeft : Z) : Z := timeLeft / 1000.

Record formatted := Formatted { days : Z; hours : Z; minutes : Z; seconds : Z }.

Definition formattedTime (timeLeft : Z) : formatted :=
  {| days := timeLeft / (1000 * 60 * 60 * 24);
     hours := Z.rem timeLeft (1000 * 60 * 60 * 24) / (1000 * 60 * 60);
     minutes := Z.rem timeLeft (1000 * 60 * 60) / (1000 * 60);
     seconds := Z.rem timeLeft (1000 * 60) / 1000 |}.
End Countdown.

(** ** [useAsync]

    An execution is split at its [await]: [execute] runs the function and
    the state updates before it, [settle] the ones after the promise has
    resolved or rejected. *)

Module Async.
(** What a rejected promise carries: an [Error], kept as it is, or any other
    value, wrapped as [new Error(String(err))].  An [Error] is its message. *)
Inductive thrown :=
| AnError (message : string)
| NotAnError (shown : string).

Definition errObj (err : thrown) : string :=
  match err with
  | AnError message => message
  | NotAnError shown => shown
  end.

Section Hook.
(** [R]: results; [A]: argument lists, [no_args] being [[]]; [Fn]: references
    to functions. *)
Context {R A Fn : Type} `{EqDecision Fn}.
Variable no_args : A.

(** [deps] is the dependency array [[immediate, execute]] of the effect,
    [execute] changing with [fn]; [started] lists the calls of [fn]. *)
Record state := State {
  loading : bool;
  error : option string;
  value : option R;
  deps : option (bool * Fn);
  started : list (Fn * A)
}.

Definition init : state :=
  {| loading := false; error := None; value := None; deps := None; started := [] |}.

(** [execute(...args)] up to the [await]. *)
Definition execute (fn : Fn) (args : A) (st : state) : state :=
  {| loading := true; error := None; value := None;
     deps := deps st; started := started st ++ [(fn, args)] |}.

(** The rest of an execution, with what the promise it returned settles to. *)
Definition settle (outcome : R + thrown) (st : state) : state * (R + string) :=
  match outcome with
  | inl res =>
      ({| loading := false; error := error st; value := Some res;
          deps := deps st; started := started st |}, inl res)
  | inr err =>
      ({| loading := false; error := Some (errObj err); value := value st;
          deps := deps st; started := started st |}, inr (errObj err))
  end.

(** A render of [useAsync(fn, { immediate, initialArgs })] and its effect. *)
Definition useAsync (fn : Fn) (immediate : option bool) (initialArgs : option A)
    (st : state) : state :=
  let d := (default false immediate, fn) in
  if decide (deps st = Some d) then st
  else
    let st' := {| loading := loading st; error := error st; value := value st;
                  deps := Some d; started := started st |} in
    if default false immediate then execute fn (default no_args initialArgs) st'
    else st'.

(** Renders with the function references [fns], in that order. *)
Definition renders (immediate : option bool) (initialArgs : option A)
    (fns : list Fn) (st : state) : state :=
  fold_left (fun st fn => useAsync fn immediate initialArgs st) fns st.

(** The references of [fns] that differ from the one before them. *)
Fixpoint fresh (prev : option Fn) (fns : list Fn) : list Fn :=
  match fns with
  | [] => []
  | fn :: rest =>
      if decide (prev = Some fn) then fresh prev rest
      else fn :: fresh (Some fn) rest
  end.
End Hook.
Arguments state : clear implicits.
End Async.

(** ** [useCopyToClipboard] *)

Module Clipboard.
Record UseCopyToClipboardOptions := Options {
  successDuration : option Z;
  resetAfterDelay : option bool;
  successMessage : option string
}.

(** [successDuration = 2000], [resetAfterDelay = true] *)
Definition successDuration_of (o : UseCopyToClipboardOptions) : Z :=
  default 2000 (successDuration o).
Definition resetAfterDelay_of (o : UseCopyToClipboardOptions) : bool :=
  default true (resetAfterDelay o).

(** What the browser does with one copy: [navigator.clipboard.writeText]
    exists and its promise resolves, rejects with an [Error] or with
    something else; or it does not exist and [document.execCommand('copy')]
    returns a boolean or throws. *)
Inductive browser :=
| WriteResolves
| WriteRejects (message : string)
| WriteRejectsOther
| ExecReturns (successful : bool)
| ExecThrows.

(** [fallbackCopy]: the result of [execCommand], [false] when it throws. *)
Definition fallbackCopy (b : browser) : bool :=
  match b with
  | ExecReturns successful => successful
  | _ => false
  end.

(** The outcome of the [try] block: [None] when the text was copied, else
    the message of the error caught. *)
Definition attempt (b : browser) : option string :=
  match b with
  | WriteResolves => None
  | WriteRejects message => Some message
  | WriteRejectsOther => Some "Copy failed"%string
  | ExecReturns _ | ExecThrows =>
      if fallbackCopy b then None else Some "Copy operation failed"%string
  end.

(** [clipboard] is the system clipboard; the timers are those that reset
    the success state. *)
Record state := State {
  copiedValue : option string;
  copied : bool;
  error : option string;
  loading : bool;
  timers : Host.host unit;
  clipboard : option string
}.

Definition init (clipboard : option string) : state :=
  {| copiedValue := None; copied := false; error := None; loading := false;
     timers := Host.boot; clipboard := clipboard |}.

Definition reset (st : state) : state :=
  {| copiedValue := None; copied := false; error := None; loading := false;
     timers := timers st; clipboard := clipboard st |}.

(** [copy(text)] up to the point where the browser is asked; the boolean
    tells whether it is: not for an empty text, for which the call is over
    and returns [false]. *)
Definition copy_begin (text : string) (st : state) : state * bool :=
  if String.eqb text "" then
    ({| copiedValue := copiedValue st; copied := copied st;
        error := Some "No text provided to copy"%string; loading := loading st;
        timers := timers st; clipboard := clipboard st |}, false)
  else
    ({| copiedValue := copiedValue st; copied := copied st;
        error := None; loading := true;
        timers := timers st; clipboard := clipboard st |}, true).

(** The rest of [copy(text)], once the browser has answered, when the clock
    reads [now]; the boolean is what the promise of [copy] resolves to. *)
Definition copy_end (o : UseCopyToClipboardOptions) (b : browser) (text : string)
    (now : Z) (st : state) : state * bool :=
  match attempt b with
  | None =>
      ({| copiedValue := Some text; copied := true; error := None;
          loading := false;
          timers :=
            if resetAfterDelay_of o
            then snd (Host.setTimeout now tt (successDuration_of o) (timers st))
            else timers st;
          clipboard := Some text |}, true)
  | Some message =>
      ({| copiedValue := copiedValue st; copied := false;
          error := Some message; loading := false;
          timers := timers st; clipboard := clipboard st |}, false)
  end.

(** A whole call of [copy], nothing else happening while the browser works. *)
Definition copy (o : UseCopyToClipboardOptions) (b : browser) (text : string)
    (now : Z) (st : state) : state * bool :=
  let '(st', asked) := copy_begin text st in
  if asked then copy_end o b text now st' else (st', false).

(** The host fires a reset timer: [setCopied(false); setError(null)]. *)
Definition fire (id : nat) (now : Z) (st : state) : option state :=
  match Host.take id now (timers st) with
  | Some (_, h) =>
      Some {| copiedValue := copiedValue st; copied := false; error := None;
              loading := loading st; timers := h; clipboard := clipboard st |}
  | None => None
  end.
End Clipboard.

Module CountdownShapes.
Import Countdown.
Section Shapes.
Context {K : Type}.

(** The countdown runs: active, not completed, with exactly one interval
    running, owned by the effect. *)
Definition counting (c : UseTimerOptions K) (st : state K) : Prop :=
  isActive st = true /\ isCompleted st = false /\
  depsC st = Some (true, false, targetDate c, interval_of c) /\
  cleanupC st = true /\
  exists id, intervalRef st = Some id /\ running (intervals st) = {[ id ]}.

(** The countdown stands still: no interval is running and the effect has
    seen the flags as they are. *)
Definition still (c : UseTimerOptions K) (st : state K) : Prop :=
  (isActive st = false \/ isCompleted st = true) /\
  depsC st = Some (isActive st, isCompleted st, targetDate c, interval_of c) /\
  intervalRef st = None /\
  running (intervals st) = ∅.

(** The time the callback of the interval computes. *)
Definition next_time (c : UseTimerOptions K) (now : Z) (st : state K) : Z :=
  match targetDate c with
  | Some target => calculateTimeLeft target now
  | None => Z.max 0 (timeLeft st - interval_of c)
  end.

(** The calls of a completion callback called once, if there is one. *)
Definition called_once (k : option K) : list K :=
  match k with Some f => [f] | None => [] end.
End Shapes.
End CountdownShapes.

Module ClipboardTrace.
Import Clipboard.

(** What a component does with the hook: calls of [copy], each with what
    the browser does with it and the clock reading when it answers, and
    calls of [reset]. *)
Inductive op :=
| DoCopy (b : browser) (text : string) (now : Z)
| DoReset.

Definition step (o : UseCopyToClipboardOptions) (st : state) (x : op) : state :=
  match x with
  | DoCopy b text now => fst (copy o b text now st)
  | DoReset => reset st
  end.

Definition run (o : UseCopyToClipboardOptions) (ops : list op) (st : state) : state :=
  fold_left (step o) ops st.
End ClipboardTrace.

Module AsyncTrace.
Import Async.
Section Trace.
Context {R A Fn : Type}.

(** What happens to the executions of one hook: one is started, or the
    promise of one that was started settles. *)
Inductive event :=
| Start (fn : Fn) (args : A)
| Settle (outcome : R + thrown).

Definition step (st : state R A Fn) (e : event) : state R A Fn :=
  match e with
  | Start fn args => execute fn args st
  | Settle outcome => fst (settle outcome st)
  end.



End Trace.
Arguments event : clear implicits.
End AsyncTrace.

(** * Properties *)

(** ** The defaults of the options *)

Example throttle_defaults :
  ThrottleOptions.delay_of ThrottleOptions.empty = 300 /\
  ThrottleOptions.leading_of ThrottleOptions.empty = true /\
  ThrottleOptions.trailing_of ThrottleOptions.empty = true.
Proof. repeat split. Qed.

Example debounce_defaults :
  Debounce.delay_of Debounce.empty = 500 /\
  Debounce.leading_of Debounce.empty = false /\
  Debounce.truthy (Debounce.maxWait Debounce.empty) = false.
Proof. repeat split. Qed.

(** ** The timer table *)

Section HostFacts.
Context {C : Type}.
Implicit Types (h : Host.host C) (tm : Host.timer C).

Lemma earliest_none h : Host.live h = ∅ -> Host.earliest h = None.
Proof.
  intros E. unfold Host.earliest. rewrite E, map_to_list_empty. reflexivity.
Qed.

Lemma earliest_single h id tm :
  Host.live h = {[ id := tm ]} -> Host.earliest h = Some (id, tm).
Proof.
  intros E. unfold Host.earliest. rewrite E, map_to_list_singleton. reflexivity.
Qed.

Lemma take_single h id tm t :
  Host.live h = {[ id := tm ]} -> Host.due tm <= t ->
  Host.take id t h = Some (Host.action tm, Host.MkHost (Host.next_handle h) ∅).
Proof.
  intros E Hd. unfold Host.take, Host.clearTimeout.
  rewrite E, lookup_singleton_eq, delete_singleton_eq.
  destruct (Z.leb_spec (Host.due tm) t); [reflexivity | lia].
Qed.

Lemma take_early h id tm t :
  Host.live h = {[ id := tm ]} -> t < Host.due tm -> forall i, Host.take i t h = None.
Proof.
  intros E Hd i. unfold Host.take. rewrite E.
  destruct (decide (i = id)) as [->|Hne].
  - rewrite lookup_singleton_eq.
    destruct (Z.leb_spec (Host.due tm) t); [lia | reflexivity].
  - rewrite lookup_singleton_ne by congruence. reflexivity.
Qed.

Lemma take_none h t : Host.live h = ∅ -> forall i, Host.take i t h = None.
Proof. intros E i. unfold Host.take. rewrite E, lookup_empty. reflexivity. Qed.

Lemma earliest_live h id tm :
  Host.earliest h = Some (id, tm) -> Host.live h !! id = Some tm.
Proof.
  unfold Host.earliest. intros E. apply elem_of_map_to_list.
  induction (map_to_list (Host.live h)) as [|x l IH]; [discriminate|].
  simpl in E. destruct (foldr _ None l) as [y|].
  - destruct (Host.sooner x y).
    + injection E as ->. left.
    + right. apply IH. exact E.
  - injection E as ->. left.
Qed.
End HostFacts.

(** ** [useThrottleCallback] *)

Section ThrottleCallbackFacts.
Import ThrottleOptions ThrottleCallback.
Context {F A : Type}.
Implicit Types (st : state F A) (o : UseThrottleOptions) (a : A) (f : F).

Lemma tc_clear_ref_live st : coherent st -> Host.live (clear_ref st) = ∅.
Proof.
  unfold coherent, clear_ref. destruct (timeoutRef st) as [id|].
  - intros [[tm E] _]. simpl. rewrite E. apply delete_singleton_eq.
  - intros [E _]. exact E.
Qed.

Lemma tc_clear_ref_next st : Host.next_handle (clear_ref st) = Host.next_handle (timers st).
Proof. unfold clear_ref. destruct (timeoutRef st); reflexivity. Qed.

Lemma tc_clear_ref_eq st :
  coherent st -> clear_ref st = Host.MkHost (Host.next_handle (timers st)) ∅.
Proof.
  intros H. pose proof (tc_clear_ref_live st H) as E.
  pose proof (tc_clear_ref_next st) as N.
  destruct (clear_ref st) as [n l]. simpl in *. congruence.
Qed.

Lemma tc_coherent_mount f : coherent (mount (A := A) f).
Proof. unfold coherent. simpl. auto. Qed.

Lemma tc_coherent_render f st : coherent st -> coherent (render f st).
Proof. unfold coherent. simpl. auto. Qed.

Lemma tc_coherent_cancel st : coherent st -> coherent (cancel st).
Proof.
  intros H. unfold coherent. simpl. rewrite tc_clear_ref_live by assumption. auto.
Qed.

Lemma tc_coherent_flush now st : coherent st -> coherent (flush now st).
Proof.
  intros H. unfold flush.
  destruct (timeoutRef st) as [id|] eqn:Ei; [|exact H].
  destruct (pendingArgsRef st) as [a|] eqn:Ea; [|exact H].
  pose proof (tc_clear_ref_live st H) as E. unfold clear_ref in E. rewrite Ei in E.
  unfold coherent. simpl. auto.
Qed.

(** What a call does on each of its three paths. *)
Lemma tc_throttledCallback_leading o now a st :
  coherent st -> leading_edge o now st = true ->
  throttledCallback o now a st =
  {| isThrottled := false; lastExecutedRef := now;
     timeoutRef := None; pendingArgsRef := None;
     callbackRef := callbackRef st;
     timers := Host.MkHost (Host.next_handle (timers st)) ∅;
     calls := calls st ++ [Call now (callbackRef st) a] |}.
Proof.
  intros H L. unfold throttledCallback. rewrite L, tc_clear_ref_eq by assumption.
  reflexivity.
Qed.

Lemma tc_throttledCallback_trailing o now a st :
  coherent st -> leading_edge o now st = false -> trailing_of o = true ->
  throttledCallback o now a st =
  {| isThrottled := true; lastExecutedRef := lastExecutedRef st;
     timeoutRef := Some (Host.next_handle (timers st));
     pendingArgsRef := Some a;
     callbackRef := callbackRef st;
     timers :=
       Host.MkHost (S (Host.next_handle (timers st)))
         {[ Host.next_handle (timers st) :=
              Host.Timer
                (now + Z.max 0 (delay_of o - (now - lastExecutedRef st))) tt ]};
     calls := calls st |}.
Proof.
  intros H L Tr. unfold throttledCallback. rewrite L, Tr, tc_clear_ref_eq by assumption.
  unfold Host.setTimeout. simpl. rewrite insert_empty.
  replace (Z.max 0 (Z.max 0 (delay_of o - (now - lastExecutedRef st))))
    with (Z.max 0 (delay_of o - (now - lastExecutedRef st))) by lia.
  reflexivity.
Qed.

Lemma tc_throttledCallback_dropped o now a st :
  leading_edge o now st = false -> trailing_of o = false ->
  throttledCallback o now a st = st.
Proof. intros L Tr. unfold throttledCallback. rewrite L, Tr. reflexivity. Qed.

Lemma tc_coherent_throttledCallback o now a st :
  coherent st -> coherent (throttledCallback o now a st).
Proof.
  intros H. destruct (leading_edge o now st) eqn:L.
  - rewrite tc_throttledCallback_leading by assumption. unfold coherent. simpl. auto.
  - destruct (trailing_of o) eqn:Tr.
    + rewrite tc_throttledCallback_trailing by assumption. unfold coherent. simpl.
      eauto.
    + rewrite tc_throttledCallback_dropped by assumption. exact H.
Qed.

(** The pending timer fires at any time from its due time on. *)
Lemma tc_fire_pending st id d a t :
  timeoutRef st = Some id ->
  Host.live (timers st) = {[ id := Host.Timer d tt ]} ->
  pendingArgsRef st = Some a -> d <= t ->
  fire id t st =
  Some {| isThrottled := false; lastExecutedRef := t;
          timeoutRef := None; pendingArgsRef := None;
          callbackRef := callbackRef st;
          timers := Host.MkHost (Host.next_handle (timers st)) ∅;
          calls := calls st ++ [Call t (callbackRef st) a] |}.
Proof.
  intros _ E Ea Hd. unfold fire.
  rewrite (take_single _ _ _ _ E) by exact Hd.
  unfold on_timeout. rewrite Ea. reflexivity.
Qed.

Lemma tc_fire_early st id d t :
  Host.live (timers st) = {[ id := Host.Timer d tt ]} -> t < d ->
  forall i, fire i t st = None.
Proof.
  intros E Hd i. unfold fire. rewrite (take_early _ _ _ _ E) by exact Hd.
  reflexivity.
Qed.

Lemma tc_fire_idle st t :
  Host.live (timers st) = ∅ -> forall i, fire i t st = None.
Proof. intros E i. unfold fire. rewrite take_none by exact E. reflexivity. Qed.

Lemma tc_coherent_fire id t st st' :
  coherent st -> fire id t st = Some st' -> coherent st'.
Proof.
  intros H. unfold fire, Host.take.
  destruct (Host.live (timers st) !! id) as [tm|] eqn:El; [|discriminate].
  destruct (Host.due tm <=? t); [|discriminate].
  intros [= <-].
  assert (Host.live (Host.clearTimeout id (timers st)) = ∅) as E.
  { unfold coherent in H. destruct (timeoutRef st) as [id'|].
    - destruct H as [[tm' E] _]. simpl. rewrite E in El |- *.
      destruct (decide (id = id')) as [->|Hne].
      + apply delete_singleton_eq.
      + rewrite lookup_singleton_ne in El by congruence. discriminate.
    - destruct H as [E _]. rewrite E, lookup_empty in El. discriminate. }
  unfold on_timeout, coherent. destruct (pendingArgsRef st); simpl; auto.
Qed.

(** The ideal host, on a coherent gate. *)
Lemma tc_advance_idle st t : Host.live (timers st) = ∅ -> advance t st = st.
Proof.
  intros E. unfold advance, Ideal.advance. rewrite E, map_size_empty. reflexivity.
Qed.

Lemma tc_advance_early st id d t :
  Host.live (timers st) = {[ id := Host.Timer d tt ]} -> t < d ->
  advance t st = st.
Proof.
  intros E Hd. unfold advance, Ideal.advance. rewrite E, map_size_singleton.
  simpl. rewrite (earliest_single _ _ _ E). simpl.
  destruct (Z.leb_spec d t); [lia | reflexivity].
Qed.

Lemma tc_advance_due st id d a t :
  timeoutRef st = Some id ->
  Host.live (timers st) = {[ id := Host.Timer d tt ]} ->
  pendingArgsRef st = Some a -> d <= t ->
  advance t st =
  {| isThrottled := false; lastExecutedRef := d;
     timeoutRef := None; pendingArgsRef := None;
     callbackRef := callbackRef st;
     timers := Host.MkHost (Host.next_handle (timers st)) ∅;
     calls := calls st ++ [Call d (callbackRef st) a] |}.
Proof.
  intros Ei E Ea Hd. unfold advance, Ideal.advance. rewrite E, map_size_singleton.
  simpl. rewrite (earliest_single _ _ _ E). simpl.
  destruct (Z.leb_spec d t); [|lia].
  rewrite (tc_fire_pending st id d a d) by (assumption || lia). reflexivity.
Qed.
(** The transitions between the two shapes of the gate, on an ideal host. *)
Lemma tc_coherent_idle last n f cs : coherent (idle_gate (A := A) last n f cs).
Proof. unfold coherent. simpl. auto. Qed.

Lemma tc_coherent_pending last n d a f cs : coherent (pending_gate last n d a f cs).
Proof. unfold coherent. simpl. eauto. Qed.

Lemma tc_mount_idle f : mount (A := A) f = idle_gate 0 1 f [].
Proof. reflexivity. Qed.

Lemma tc_advance_idle_gate t last n f cs :
  advance t (idle_gate (A := A) last n f cs) = idle_gate last n f cs.
Proof. apply tc_advance_idle. reflexivity. Qed.

Lemma tc_advance_pending_early t last n d a f cs :
  t < d -> advance t (pending_gate last n d a f cs) = pending_gate last n d a f cs.
Proof. intros Hd. eapply tc_advance_early; [reflexivity | exact Hd]. Qed.

Lemma tc_advance_pending_due t last n d a f cs :
  d <= t ->
  advance t (pending_gate last n d a f cs) = idle_gate d (S n) f (cs ++ [Call d f a]).
Proof.
  intros Hd.
  rewrite (tc_advance_due _ n d a t) by (reflexivity || exact Hd). reflexivity.
Qed.

Lemma tc_call_idle_leading o t a last n f cs :
  leading_of o = true -> delay_of o <= t - last ->
  throttledCallback o t a (idle_gate last n f cs) = idle_gate t n f (cs ++ [Call t f a]).
Proof.
  intros L Hd. rewrite tc_throttledCallback_leading.
  - reflexivity.
  - apply tc_coherent_idle.
  - unfold leading_edge. rewrite L. simpl. apply Z.leb_le. exact Hd.
Qed.

Lemma tc_call_idle_trailing o t a last n f cs d :
  leading_of o && (delay_of o <=? t - last) = false -> trailing_of o = true ->
  d = t + Z.max 0 (delay_of o - (t - last)) ->
  throttledCallback o t a (idle_gate last n f cs) = pending_gate last n d a f cs.
Proof.
  intros L Tr ->. rewrite tc_throttledCallback_trailing.
  - reflexivity.
  - apply tc_coherent_idle.
  - exact L.
  - exact Tr.
Qed.

Lemma tc_call_pending_leading o t a last n d0 a0 f cs :
  leading_of o = true -> delay_of o <= t - last ->
  throttledCallback o t a (pending_gate last n d0 a0 f cs)
  = idle_gate t (S n) f (cs ++ [Call t f a]).
Proof.
  intros L Hd. rewrite tc_throttledCallback_leading.
  - reflexivity.
  - apply tc_coherent_pending.
  - unfold leading_edge. rewrite L. simpl. apply Z.leb_le. exact Hd.
Qed.

Lemma tc_call_pending_trailing o t a last n d0 a0 f cs d :
  leading_of o && (delay_of o <=? t - last) = false -> trailing_of o = true ->
  d = t + Z.max 0 (delay_of o - (t - last)) ->
  throttledCallback o t a (pending_gate last n d0 a0 f cs)
  = pending_gate last (S n) d a f cs.
Proof.
  intros L Tr ->. rewrite tc_throttledCallback_trailing.
  - reflexivity.
  - apply tc_coherent_pending.
  - exact L.
  - exact Tr.
Qed.

(** Every state of a mounted gate is coherent. *)
Lemma tc_reachable_coherent st : reachable st -> coherent st.
Proof.
  induction 1.
  - apply tc_coherent_mount.
  - apply tc_coherent_render. assumption.
  - apply tc_coherent_throttledCallback. assumption.
  - apply tc_coherent_cancel. assumption.
  - apply tc_coherent_flush. assumption.
  - eapply tc_coherent_fire; eassumption.
Qed.

(** The ideal host leaves no timer overdue. *)
Lemma tc_advance_punctual t st id tm :
  coherent st -> Host.live (timers (advance t st)) !! id = Some tm -> t < Host.due tm.
Proof.
  intros Hc. pose proof Hc as Hc'. unfold coherent in Hc'.
  destruct (timeoutRef st) as [i|] eqn:Ei.
  - destruct Hc' as ([[d []] E] & [a Ea] & _).
    destruct (Z.le_gt_cases d t) as [Hd|Hd].
    + rewrite (tc_advance_due st i d a t) by assumption. simpl.
      rewrite lookup_empty. discriminate.
    + rewrite (tc_advance_early st i d t) by (assumption || lia). rewrite E.
      intros El. apply lookup_singleton_Some in El as [_ <-]. simpl. lia.
  - destruct Hc' as (E & _). rewrite tc_advance_idle by exact E.
    rewrite E, lookup_empty. discriminate.
Qed.

(** After unmount no timer is left to fire. *)
Lemma tc_unmount_silent st :
  coherent st -> forall i t, fire i t (unmount st) = None.
Proof.
  intros Hc i t. apply tc_fire_idle. simpl. apply tc_clear_ref_live. exact Hc.
Qed.

Lemma tc_renders_last fs f st : renders (fs ++ [f]) st = render f st.
Proof.
  revert st. induction fs as [|g fs IH]; intros st; [reflexivity|].
  change (renders ((g :: fs) ++ [f]) st) with (renders (fs ++ [f]) (render g st)).
  rewrite IH. reflexivity.
Qed.

(** A trailing call is pending exactly when a timer is live. *)
Lemma tc_pending_iff st :
  coherent st -> (isThrottled st = true <-> Host.live (timers st) <> ∅).
Proof.
  unfold coherent. destruct (timeoutRef st) as [id|].
  - intros ([tm E] & _ & Et). split; [|auto]. intros _. rewrite E.
    apply insert_non_empty.
  - intros (E & _ & Et). split; [congruence | contradiction].
Qed.
End ThrottleCallbackFacts.

(** ** [useThrottle] *)

Section ThrottleValueFacts.
Import ThrottleOptions ThrottleValue.
Context {T : Type} `{EqDecision T}.
Implicit Types (st : state T) (o : UseThrottleOptions) (v : T).

Lemma tv_clear_ref_live st : wf st -> Host.live (clear_ref st) = ∅.
Proof.
  unfold wf, clear_ref. intros [E | (_ & id & tm & Ei & E)].
  - destruct (timeoutRef st); [|exact E]. simpl. rewrite E. apply delete_empty.
  - rewrite Ei. simpl. rewrite E. apply delete_singleton_eq.
Qed.

Lemma tv_clear_ref_next st : Host.next_handle (clear_ref st) = Host.next_handle (timers st).
Proof. unfold clear_ref. destruct (timeoutRef st); reflexivity. Qed.

Lemma tv_wf_init v : wf (init v).
Proof. left. reflexivity. Qed.

(** When the effect starts, no timer is live any more. *)
Lemma tv_before_effect_timers d st :
  wf st ->
  timers (before_effect d st) = Host.MkHost (Host.next_handle (timers st)) ∅.
Proof.
  intros W. unfold before_effect. simpl.
  destruct (cleanup st) eqn:Ec.
  - pose proof (tv_clear_ref_live st W) as E. pose proof (tv_clear_ref_next st) as N.
    destruct (clear_ref st). simpl in *. congruence.
  - destruct W as [E | (Ec' & _)]; [|congruence].
    destruct (timers st). simpl in *. congruence.
Qed.

Lemma tv_before_effect_clear d st :
  wf st ->
  clear_ref (before_effect d st) = Host.MkHost (Host.next_handle (timers st)) ∅.
Proof.
  intros W. unfold clear_ref. rewrite tv_before_effect_timers by assumption.
  simpl. destruct (timeoutRef st); [|reflexivity].
  unfold Host.clearTimeout. simpl. rewrite delete_empty. reflexivity.
Qed.

Lemma tv_leading_edge_before d o now st :
  leading_edge o now (before_effect d st) = leading_edge o now st.
Proof. reflexivity. Qed.

(** What a render does when the dependencies are unchanged, and on each
    of the three paths of the effect. *)
Lemma tv_useThrottle_same v o now st :
  deps st = Some (v, delay_of o, leading_of o, trailing_of o) ->
  useThrottle v o now st = st.
Proof. intros E. unfold useThrottle. rewrite decide_True by exact E. reflexivity. Qed.

Lemma tv_useThrottle_leading v o now st :
  wf st ->
  deps st <> Some (v, delay_of o, leading_of o, trailing_of o) ->
  leading_edge o now st = true ->
  useThrottle v o now st =
  {| throttledValue := v; lastExecutedRef := now; timeoutRef := None;
     isFirstCallRef := false;
     deps := Some (v, delay_of o, leading_of o, trailing_of o);
     cleanup := false;
     timers := Host.MkHost (Host.next_handle (timers st)) ∅;
     emitted := emitted st ++ [(now, v)] |}.
Proof.
  intros W D L. unfold useThrottle. rewrite decide_False by exact D.
  unfold effect. rewrite tv_leading_edge_before, L, tv_before_effect_clear by assumption.
  reflexivity.
Qed.

Lemma tv_useThrottle_trailing v o now st :
  wf st ->
  deps st <> Some (v, delay_of o, leading_of o, trailing_of o) ->
  leading_edge o now st = false -> trailing_of o = true ->
  useThrottle v o now st =
  {| throttledValue := throttledValue st;
     lastExecutedRef := lastExecutedRef st;
     timeoutRef := Some (Host.next_handle (timers st));
     isFirstCallRef := false;
     deps := Some (v, delay_of o, leading_of o, trailing_of o);
     cleanup := true;
     timers :=
       Host.MkHost (S (Host.next_handle (timers st)))
         {[ Host.next_handle (timers st) :=
              Host.Timer
                (now + Z.max 0 (delay_of o - (now - lastExecutedRef st))) v ]};
     emitted := emitted st |}.
Proof.
  intros W D L Tr. unfold useThrottle. rewrite decide_False by exact D.
  unfold effect. rewrite tv_leading_edge_before, L, Tr, tv_before_effect_clear by assumption.
  unfold Host.setTimeout. simpl. rewrite insert_empty. reflexivity.
Qed.

Lemma tv_useThrottle_dropped v o now st :
  wf st ->
  deps st <> Some (v, delay_of o, leading_of o, trailing_of o) ->
  leading_edge o now st = false -> trailing_of o = false ->
  useThrottle v o now st =
  {| throttledValue := throttledValue st;
     lastExecutedRef := lastExecutedRef st;
     timeoutRef := timeoutRef st;
     isFirstCallRef := false;
     deps := Some (v, delay_of o, leading_of o, trailing_of o);
     cleanup := true;
     timers := Host.MkHost (Host.next_handle (timers st)) ∅;
     emitted := emitted st |}.
Proof.
  intros W D L Tr. unfold useThrottle. rewrite decide_False by exact D.
  unfold effect. rewrite tv_leading_edge_before, L, Tr.
  rewrite tv_before_effect_timers by assumption. reflexivity.
Qed.

Lemma tv_wf_useThrottle v o now st : wf st -> wf (useThrottle v o now st).
Proof.
  intros W.
  destruct (decide (deps st = Some (v, delay_of o, leading_of o, trailing_of o)))
    as [D|D].
  { rewrite tv_useThrottle_same by exact D. exact W. }
  destruct (leading_edge o now st) eqn:L.
  { rewrite tv_useThrottle_leading by assumption. left. reflexivity. }
  destruct (bool_decide (trailing_of o = true)) eqn:Tr.
  - apply bool_decide_eq_true in Tr.
    rewrite tv_useThrottle_trailing by assumption. right. simpl. eauto.
  - apply bool_decide_eq_false, not_true_is_false in Tr.
    rewrite tv_useThrottle_dropped by assumption. left. reflexivity.
Qed.

Lemma tv_wf_mount v o now : wf (mount v o now).
Proof. apply tv_wf_useThrottle, tv_wf_init. Qed.

(** The first render always emits on the leading edge when [leading]. *)
Lemma tv_mount_leading v o now :
  leading_of o = true ->
  mount v o now =
  {| throttledValue := v; lastExecutedRef := now; timeoutRef := None;
     isFirstCallRef := false;
     deps := Some (v, delay_of o, leading_of o, trailing_of o);
     cleanup := false;
     timers := Host.boot;
     emitted := [(now, v)] |}.
Proof.
  intros L. unfold mount. rewrite tv_useThrottle_leading.
  - reflexivity.
  - apply tv_wf_init.
  - discriminate.
  - unfold leading_edge. rewrite L. reflexivity.
Qed.

(** The pending timer fires at any time from its due time on. *)
Lemma tv_fire_pending st id d v t :
  Host.live (timers st) = {[ id := Host.Timer d v ]} -> d <= t ->
  fire id t st =
  Some {| throttledValue := v; lastExecutedRef := t; timeoutRef := None;
          isFirstCallRef := isFirstCallRef st; deps := deps st;
          cleanup := cleanup st;
          timers := Host.MkHost (Host.next_handle (timers st)) ∅;
          emitted := emitted st ++ [(t, v)] |}.
Proof.
  intros E Hd. unfold fire. rewrite (take_single _ _ _ _ E) by exact Hd.
  reflexivity.
Qed.

Lemma tv_fire_early st id d v t :
  Host.live (timers st) = {[ id := Host.Timer d v ]} -> t < d ->
  forall i, fire i t st = None.
Proof.
  intros E Hd i. unfold fire. rewrite (take_early _ _ _ _ E) by exact Hd.
  reflexivity.
Qed.

Lemma tv_wf_fire id t st st' : wf st -> fire id t st = Some st' -> wf st'.
Proof.
  intros W. unfold fire, Host.take.
  destruct (Host.live (timers st) !! id) as [tm|] eqn:El; [|discriminate].
  destruct (Host.due tm <=? t); [|discriminate].
  intros [= <-]. left. simpl.
  destruct W as [E | (_ & id' & tm' & _ & E)]; rewrite E in El |- *.
  - apply delete_empty.
  - destruct (decide (id = id')) as [->|Hne].
    + apply delete_singleton_eq.
    + rewrite lookup_singleton_ne in El by congruence. discriminate.
Qed.

(** The ideal host, on a well-formed gate. *)
Lemma tv_advance_idle st t : Host.live (timers st) = ∅ -> advance t st = st.
Proof.
  intros E. unfold advance, Ideal.advance. rewrite E, map_size_empty. reflexivity.
Qed.

Lemma tv_advance_early st id d v t :
  Host.live (timers st) = {[ id := Host.Timer d v ]} -> t < d ->
  advance t st = st.
Proof.
  intros E Hd. unfold advance, Ideal.advance. rewrite E, map_size_singleton.
  simpl. rewrite (earliest_single _ _ _ E). simpl.
  destruct (Z.leb_spec d t); [lia | reflexivity].
Qed.

Lemma tv_advance_due st id d v t :
  Host.live (timers st) = {[ id := Host.Timer d v ]} -> d <= t ->
  advance t st =
  {| throttledValue := v; lastExecutedRef := d; timeoutRef := None;
     isFirstCallRef := isFirstCallRef st; deps := deps st;
     cleanup := cleanup st;
     timers := Host.MkHost (Host.next_handle (timers st)) ∅;
     emitted := emitted st ++ [(d, v)] |}.
Proof.
  intros E Hd. unfold advance, Ideal.advance. rewrite E, map_size_singleton.
  simpl. rewrite (earliest_single _ _ _ E). simpl.
  destruct (Z.leb_spec d t); [|lia].
  rewrite (tv_fire_pending st id d v d) by (assumption || lia). reflexivity.
Qed.
(** The transitions between the two shapes of the gate, on an ideal host. *)
Lemma tv_wf_idle v last ref d c n em : wf (idle_gate v last ref d c n em).
Proof. left. reflexivity. Qed.

Lemma tv_wf_pending v last d n due pv em : wf (pending_gate v last d n due pv em).
Proof. right. simpl. eauto. Qed.

Lemma tv_mount_idle v o t :
  leading_of o = true ->
  mount v o t =
  idle_gate v t None (Some (v, delay_of o, leading_of o, trailing_of o)) false 1
    [(t, v)].
Proof. intros L. rewrite tv_mount_leading by exact L. reflexivity. Qed.

Lemma tv_advance_idle_gate t v last ref d c n em :
  advance t (idle_gate v last ref d c n em) = idle_gate v last ref d c n em.
Proof. apply tv_advance_idle. reflexivity. Qed.

Lemma tv_advance_pending_early t v last d n due pv em :
  t < due ->
  advance t (pending_gate v last d n due pv em) = pending_gate v last d n due pv em.
Proof. intros Hd. eapply tv_advance_early; [reflexivity | exact Hd]. Qed.

Lemma tv_advance_pending_due t v last d n due pv em :
  due <= t ->
  advance t (pending_gate v last d n due pv em)
  = idle_gate pv due None d true (S n) (em ++ [(due, pv)]).
Proof.
  intros Hd. rewrite (tv_advance_due _ n due pv t) by (reflexivity || exact Hd).
  reflexivity.
Qed.

Lemma tv_render_idle_leading v o t v0 last ref d c n em :
  d <> Some (v, delay_of o, leading_of o, trailing_of o) ->
  leading_of o = true -> delay_of o <= t - last ->
  useThrottle v o t (idle_gate v0 last ref d c n em)
  = idle_gate v t None (Some (v, delay_of o, leading_of o, trailing_of o)) false n
      (em ++ [(t, v)]).
Proof.
  intros D L Hd. rewrite tv_useThrottle_leading.
  - reflexivity.
  - apply tv_wf_idle.
  - exact D.
  - unfold leading_edge. rewrite L. simpl. apply Z.leb_le. exact Hd.
Qed.

Lemma tv_render_idle_trailing v o t v0 last ref d c n em due :
  d <> Some (v, delay_of o, leading_of o, trailing_of o) ->
  leading_of o && (delay_of o <=? t - last) = false -> trailing_of o = true ->
  due = t + Z.max 0 (delay_of o - (t - last)) ->
  useThrottle v o t (idle_gate v0 last ref d c n em)
  = pending_gate v0 last (Some (v, delay_of o, leading_of o, trailing_of o)) n due v em.
Proof.
  intros D L Tr ->. rewrite tv_useThrottle_trailing.
  - reflexivity.
  - apply tv_wf_idle.
  - exact D.
  - unfold leading_edge. simpl. rewrite L. rewrite andb_false_r. reflexivity.
  - exact Tr.
Qed.

Lemma tv_render_pending_trailing v o t v0 last d n due0 pv em due :
  d <> Some (v, delay_of o, leading_of o, trailing_of o) ->
  leading_of o && (delay_of o <=? t - last) = false -> trailing_of o = true ->
  due = t + Z.max 0 (delay_of o - (t - last)) ->
  useThrottle v o t (pending_gate v0 last d n due0 pv em)
  = pending_gate v0 last (Some (v, delay_of o, leading_of o, trailing_of o)) (S n)
      due v em.
Proof.
  intros D L Tr ->. rewrite tv_useThrottle_trailing.
  - reflexivity.
  - apply tv_wf_pending.
  - exact D.
  - unfold leading_edge. simpl. rewrite L. rewrite andb_false_r. reflexivity.
  - exact Tr.
Qed.

(** Every state of a mounted gate is well formed. *)
Lemma tv_reachable_wf st : reachable st -> wf st.
Proof.
  induction 1.
  - apply tv_wf_mount.
  - apply tv_wf_useThrottle. assumption.
  - eapply tv_wf_fire; eassumption.
Qed.

(** The ideal host leaves no timer overdue. *)
Lemma tv_advance_punctual t st id tm :
  wf st -> Host.live (timers (advance t st)) !! id = Some tm -> t < Host.due tm.
Proof.
  intros [E | (_ & i & [d v] & _ & E)].
  - rewrite tv_advance_idle by exact E. rewrite E, lookup_empty. discriminate.
  - destruct (Z.le_gt_cases d t) as [Hd|Hd].
    + rewrite (tv_advance_due st i d v t) by assumption. simpl.
      rewrite lookup_empty. discriminate.
    + rewrite (tv_advance_early st i d v t) by (assumption || lia). rewrite E.
      intros El. apply lookup_singleton_Some in El as [_ <-]. simpl. lia.
Qed.

(** After unmount no timer is left to fire. *)
Lemma tv_unmount_silent st :
  wf st -> forall i t, fire i t (unmount st) = None.
Proof.
  intros W i t. unfold fire.
  rewrite take_none; [reflexivity|]. simpl.
  destruct (cleanup st) eqn:Ec.
  - apply tv_clear_ref_live. exact W.
  - destruct W as [E | (Ec' & _)]; [exact E | congruence].
Qed.
End ThrottleValueFacts.

(** ** [useDebounce] *)

Section DebounceFacts.
Import Debounce.
Context {T : Type} `{EqDecision T}.
Implicit Types (st : state T) (o : UseDebounceOptions) (v : T).

(** The first effect: skipped, leading branch, timer branch. *)
Lemma db_effect1_skip v o first now st :
  deps1 st = Some (v, delay_of o, leading_of o, maxWait o, first) ->
  effect1 v o first now st = st.
Proof. intros E. unfold effect1. rewrite decide_True by exact E. reflexivity. Qed.

Lemma db_effect1_leading v o now st :
  deps1 st <> Some (v, delay_of o, leading_of o, maxWait o, true) ->
  leading_of o = true ->
  effect1 v o true now st =
  {| debouncedValue := v; isFirstCall := false; props := props st;
     deps1 := Some (v, delay_of o, leading_of o, maxWait o, true);
     cleanup1 := None; deps2 := deps2 st;
     timers := run_cleanup (cleanup1 st) (timers st);
     emitted := emitted st ++ [(now, v)] |}.
Proof.
  intros D L. unfold effect1. rewrite decide_False by exact D.
  rewrite L at 1. reflexivity.
Qed.

Lemma db_effect1_timers v o first now st :
  deps1 st <> Some (v, delay_of o, leading_of o, maxWait o, first) ->
  leading_of o && first = false ->
  let h := run_cleanup (cleanup1 st) (timers st) in
  let n := Host.next_handle h in
  let quiet := Host.Timer (now + Z.max 0 (delay_of o)) (OnTimer v) in
  let forced := Host.Timer (now + Z.max 0 (default 0 (maxWait o))) (OnMaxWait v) in
  effect1 v o first now st =
  {| debouncedValue := debouncedValue st; isFirstCall := isFirstCall st;
     props := props st;
     deps1 := Some (v, delay_of o, leading_of o, maxWait o, first);
     cleanup1 :=
       Some (Cleanup n (if truthy (maxWait o) && negb first then Some (S n) else None));
     deps2 := deps2 st;
     timers :=
       if truthy (maxWait o) && negb first then
         Host.MkHost (S (S n)) (<[S n := forced]> (<[n := quiet]> (Host.live h)))
       else Host.MkHost (S n) (<[n := quiet]> (Host.live h));
     emitted := emitted st |}.
Proof.
  intros D L h n quiet forced. unfold effect1. rewrite decide_False by exact D.
  rewrite L. fold h. unfold Host.setTimeout. cbn [Host.next_handle Host.live].
  fold n. destruct (truthy (maxWait o) && negb first); reflexivity.
Qed.

(** The second effect: skipped or run. *)
Lemma db_effect2_skip v o st :
  deps2 st = Some (v, leading_of o) -> effect2 v o st = st.
Proof. intros E. unfold effect2. rewrite decide_True by exact E. reflexivity. Qed.

Lemma db_effect2_run v o st :
  deps2 st <> Some (v, leading_of o) ->
  effect2 v o st =
  {| debouncedValue := debouncedValue st;
     isFirstCall := if leading_of o then isFirstCall st else false;
     props := props st;
     deps1 := deps1 st; cleanup1 := cleanup1 st;
     deps2 := Some (v, leading_of o);
     timers := timers st; emitted := emitted st |}.
Proof. intros D. unfold effect2. rewrite decide_False by exact D. reflexivity. Qed.

Lemma db_commit_eq now st :
  commit now st = effect2 (fst (props st)) (snd (props st))
                    (effect1 (fst (props st)) (snd (props st)) (isFirstCall st) now st).
Proof. unfold commit. destruct (props st). reflexivity. Qed.

(** The first render of a gate with [leading = true]: the first commit
    takes the leading branch, which arms no timer; the render it triggers
    arms the timers. *)
Lemma db_first_commit_leading v o now :
  leading_of o = true ->
  commit now (init v o) =
  {| debouncedValue := v; isFirstCall := false; props := (v, o);
     deps1 := Some (v, delay_of o, leading_of o, maxWait o, true);
     cleanup1 := None;
     deps2 := Some (v, leading_of o);
     timers := Host.boot;
     emitted := [(now, v)] |}.
Proof.
  intros L. rewrite db_commit_eq. cbn [init props fst snd isFirstCall].
  rewrite db_effect1_leading by (discriminate || exact L).
  rewrite db_effect2_run by discriminate.
  cbn [init debouncedValue isFirstCall props deps1 cleanup1 deps2 timers emitted
       run_cleanup app].
  destruct (leading_of o); reflexivity.
Qed.

Lemma db_mount_leading v o now :
  leading_of o = true ->
  mount v o now =
  {| debouncedValue := v; isFirstCall := false; props := (v, o);
     deps1 := Some (v, delay_of o, leading_of o, maxWait o, false);
     cleanup1 := Some (Cleanup 1 (if truthy (maxWait o) then Some 2%nat else None));
     deps2 := Some (v, leading_of o);
     timers :=
       if truthy (maxWait o) then
         Host.MkHost 3
           (<[2%nat := Host.Timer (now + Z.max 0 (default 0 (maxWait o))) (OnMaxWait v)]>
              {[ 1%nat := Host.Timer (now + Z.max 0 (delay_of o)) (OnTimer v) ]})
       else
         Host.MkHost 2 {[ 1%nat := Host.Timer (now + Z.max 0 (delay_of o)) (OnTimer v) ]};
     emitted := [(now, v)] |}.
Proof.
  intros L. unfold mount, settle. rewrite db_first_commit_leading by exact L.
  rewrite db_commit_eq. cbn [props fst snd isFirstCall].
  rewrite db_effect1_timers; [|cbn [deps1]; congruence | apply andb_false_r].
  cbn [cleanup1 timers run_cleanup Host.boot Host.next_handle Host.live
       debouncedValue isFirstCall props deps2 emitted negb].
  rewrite andb_true_r, insert_empty.
  rewrite db_effect2_skip by reflexivity.
  destruct (truthy (maxWait o)); reflexivity.
Qed.

(** The first render of a gate with [leading = false]: the first commit
    arms the timer and clears [isFirstCall]; the render this triggers
    replaces that timer and arms the max-wait timer too. *)
Lemma db_first_commit_trailing v o now :
  leading_of o = false ->
  commit now (init v o) =
  {| debouncedValue := v; isFirstCall := false; props := (v, o);
     deps1 := Some (v, delay_of o, leading_of o, maxWait o, true);
     cleanup1 := Some (Cleanup 1 None);
     deps2 := Some (v, leading_of o);
     timers :=
       Host.MkHost 2 {[ 1%nat := Host.Timer (now + Z.max 0 (delay_of o)) (OnTimer v) ]};
     emitted := [] |}.
Proof.
  intros L. rewrite db_commit_eq. cbn [init props fst snd isFirstCall].
  rewrite db_effect1_timers; [|discriminate | rewrite L; reflexivity].
  rewrite db_effect2_run by discriminate.
  cbn [init debouncedValue isFirstCall props deps1 cleanup1 deps2 timers emitted
       run_cleanup Host.boot Host.next_handle Host.live negb].
  rewrite andb_false_r, insert_empty, L. reflexivity.
Qed.

Lemma db_mount_trailing v o now :
  leading_of o = false ->
  mount v o now =
  {| debouncedValue := v; isFirstCall := false; props := (v, o);
     deps1 := Some (v, delay_of o, leading_of o, maxWait o, false);
     cleanup1 := Some (Cleanup 2 (if truthy (maxWait o) then Some 3%nat else None));
     deps2 := Some (v, leading_of o);
     timers :=
       if truthy (maxWait o) then
         Host.MkHost 4
           (<[3%nat := Host.Timer (now + Z.max 0 (default 0 (maxWait o))) (OnMaxWait v)]>
              {[ 2%nat := Host.Timer (now + Z.max 0 (delay_of o)) (OnTimer v) ]})
       else
         Host.MkHost 3 {[ 2%nat := Host.Timer (now + Z.max 0 (delay_of o)) (OnTimer v) ]};
     emitted := [] |}.
Proof.
  intros L. unfold mount, settle. rewrite db_first_commit_trailing by exact L.
  rewrite db_commit_eq. cbn [props fst snd isFirstCall].
  rewrite db_effect1_timers; [|cbn [deps1]; congruence | apply andb_false_r].
  cbn [cleanup1 timers run_cleanup timer maxWaitTimer Host.clearTimeout
       Host.next_handle Host.live
       debouncedValue isFirstCall props deps2 emitted negb].
  rewrite andb_true_r, delete_singleton_eq, insert_empty.
  rewrite db_effect2_skip by reflexivity.
  destruct (truthy (maxWait o)); reflexivity.
Qed.

(** The cleanup of a tidy gate leaves no timer live. *)
Lemma db_run_cleanup_live st :
  tidy st -> Host.live (run_cleanup (cleanup1 st) (timers st)) = ∅.
Proof.
  intros Ht. apply map_eq. intros id. rewrite lookup_empty.
  destruct (Host.live (run_cleanup (cleanup1 st) (timers st)) !! id) as [tm|] eqn:E;
    [exfalso | reflexivity].
  unfold run_cleanup in E.
  destruct (cleanup1 st) as [[t m]|] eqn:Ec.
  - assert (is_Some (Host.live (timers st) !! id) /\ id <> t /\ m <> Some id)
      as (Hs & Hnt & Hnm).
    { cbn [timer maxWaitTimer] in E. destruct m as [m|]; cbn [Host.clearTimeout Host.live] in E.
      - apply lookup_delete_Some in E as [Hm E].
        apply lookup_delete_Some in E as [Hn E].
        split; [eauto|]. split; congruence.
      - apply lookup_delete_Some in E as [Hn E].
        split; [eauto|]. split; congruence. }
    destruct (Ht id Hs) as (c & Ec' & Hc). rewrite Ec in Ec'. injection Ec' as <-.
    cbn [timer maxWaitTimer] in Hc. destruct Hc; congruence.
  - destruct (Ht id) as (c & Ec' & _); [eauto | congruence].
Qed.

Lemma db_run_cleanup_next c (h : Host.host (callback T)) :
  Host.next_handle (run_cleanup c h) = Host.next_handle h.
Proof. unfold run_cleanup. destruct c as [[t [m|]]|]; reflexivity. Qed.

(** A render with changed dependencies on a gate past its first call:
    both timers are cleared and armed anew, counting from [now]. *)
Lemma db_update_rearms v o now st :
  tidy st -> isFirstCall st = false ->
  deps1 st <> Some (v, delay_of o, leading_of o, maxWait o, false) ->
  let st' := useDebounce v o now st in
  let n := Host.next_handle (timers st) in
  let quiet := Host.Timer (now + Z.max 0 (delay_of o)) (OnTimer v) in
  let forced := Host.Timer (now + Z.max 0 (default 0 (maxWait o))) (OnMaxWait v) in
  debouncedValue st' = debouncedValue st /\
  isFirstCall st' = false /\
  emitted st' = emitted st /\
  props st' = (v, o) /\
  deps1 st' = Some (v, delay_of o, leading_of o, maxWait o, false) /\
  deps2 st' = Some (v, leading_of o) /\
  cleanup1 st' = Some (Cleanup n (if truthy (maxWait o) then Some (S n) else None)) /\
  timers st' =
    if truthy (maxWait o) then
      Host.MkHost (S (S n)) (<[S n := forced]> {[ n := quiet ]})
    else Host.MkHost (S n) {[ n := quiet ]}.
Proof.
  intros Ht Hf D st' n quiet forced.
  assert (exists d2,
             commit now (with_props v o st) =
             {| debouncedValue := debouncedValue st; isFirstCall := false;
                props := (v, o);
                deps1 := Some (v, delay_of o, leading_of o, maxWait o, false);
                cleanup1 :=
                  Some (Cleanup n (if truthy (maxWait o) then Some (S n) else None));
                deps2 := Some (v, leading_of o);
                timers :=
                  if truthy (maxWait o) then
                    Host.MkHost (S (S n)) (<[S n := forced]> {[ n := quiet ]})
                  else Host.MkHost (S n) {[ n := quiet ]};
                emitted := emitted st |} /\ d2 = deps2 st) as (d2 & E & _).
  { exists (deps2 st). split; [|reflexivity].
    rewrite db_commit_eq. cbn [with_props props fst snd isFirstCall]. rewrite Hf.
    rewrite db_effect1_timers; [|exact D | apply andb_false_r].
    cbn [with_props cleanup1 timers debouncedValue isFirstCall props deps2 emitted negb].
    rewrite andb_true_r, db_run_cleanup_next, db_run_cleanup_live by exact Ht.
    rewrite insert_empty. fold n. fold quiet. fold forced. rewrite Hf.
    destruct (decide (deps2 st = Some (v, leading_of o))) as [E2|E2].
    - rewrite db_effect2_skip by exact E2. rewrite E2.
      destruct (truthy (maxWait o)); reflexivity.
    - rewrite db_effect2_run by exact E2.
      cbn [debouncedValue isFirstCall props deps1 cleanup1 deps2 timers emitted].
      destruct (leading_of o), (truthy (maxWait o)); reflexivity. }
  subst st'. unfold useDebounce, settle. rewrite E.
  rewrite db_commit_eq. cbn [props fst snd isFirstCall].
  rewrite db_effect1_skip by reflexivity.
  rewrite db_effect2_skip by reflexivity.
  cbn. repeat split; reflexivity.
Qed.

(** Once settled, a gate is left as it is by a further render with the same
    props: two commits are enough. *)
Lemma db_commit_settled now st : settled st -> commit now st = st.
Proof.
  intros (Hf & E1 & E2). rewrite db_commit_eq, Hf.
  rewrite db_effect1_skip by exact E1. apply db_effect2_skip. exact E2.
Qed.

Lemma db_settled_mount v o now : settled (mount v o now).
Proof.
  destruct (leading_of o) eqn:L.
  - rewrite db_mount_leading by exact L. repeat split.
  - rewrite db_mount_trailing by exact L. repeat split.
Qed.

Lemma db_tidy_mount v o now : tidy (mount v o now).
Proof.
  intros id Hs.
  destruct (leading_of o) eqn:L.
  - rewrite db_mount_leading in Hs |- * by exact L. eexists. split; [reflexivity|].
    cbn [timers cleanup1 timer maxWaitTimer] in *.
    destruct (truthy (maxWait o)); cbn [Host.live] in Hs.
    + apply lookup_insert_is_Some in Hs as [<- | [_ Hs]]; [right; reflexivity|].
      apply lookup_singleton_is_Some in Hs as <-. left. reflexivity.
    + apply lookup_singleton_is_Some in Hs as <-. left. reflexivity.
  - rewrite db_mount_trailing in Hs |- * by exact L. eexists. split; [reflexivity|].
    cbn [timers cleanup1 timer maxWaitTimer] in *.
    destruct (truthy (maxWait o)); cbn [Host.live] in Hs.
    + apply lookup_insert_is_Some in Hs as [<- | [_ Hs]]; [right; reflexivity|].
      apply lookup_singleton_is_Some in Hs as <-. left. reflexivity.
    + apply lookup_singleton_is_Some in Hs as <-. left. reflexivity.
Qed.

(** A render whose dependencies did not change does nothing but record
    its props. *)
Lemma db_same_deps v o now st :
  settled st ->
  deps1 st = Some (v, delay_of o, leading_of o, maxWait o, false) ->
  useDebounce v o now st = with_props v o st.
Proof.
  intros (Hf & E1 & E2) D.
  assert (settled (with_props v o st)) as Hs.
  { rewrite E1 in D. injection D as Ev Ed El Em.
    unfold settled. cbn [with_props isFirstCall deps1 deps2 props fst snd].
    rewrite E1, E2, Ev, Ed, El, Em. auto. }
  unfold useDebounce, settle.
  rewrite (db_commit_settled now (with_props v o st)) by exact Hs.
  apply db_commit_settled. exact Hs.
Qed.

Lemma db_stable_useDebounce v o now st :
  settled st -> tidy st ->
  settled (useDebounce v o now st) /\ tidy (useDebounce v o now st).
Proof.
  intros Hs Ht.
  destruct (decide (deps1 st = Some (v, delay_of o, leading_of o, maxWait o, false)))
    as [D|D].
  - rewrite db_same_deps by assumption. split.
    + destruct Hs as (Hf & E1 & E2). rewrite E1 in D. injection D as Ev Ed El Em.
      unfold settled. cbn [with_props isFirstCall deps1 deps2 props fst snd].
      rewrite E1, E2, Ev, Ed, El, Em. auto.
    + exact Ht.
  - destruct (db_update_rearms v o now st Ht (proj1 Hs) D)
      as (_ & Hf & _ & Ep & E1 & E2 & Ec & Et).
    split.
    + unfold settled. rewrite Ep. cbn [fst snd]. auto.
    + intros id His. eexists. split; [exact Ec|]. rewrite Et in His.
      cbn [timer maxWaitTimer].
      destruct (truthy (maxWait o)); cbn [Host.live] in His.
      * apply lookup_insert_is_Some in His as [<- | [_ His]]; [right; reflexivity|].
        apply lookup_singleton_is_Some in His as <-. left. reflexivity.
      * apply lookup_singleton_is_Some in His as <-. left. reflexivity.
Qed.

(** A timer that fires sets the output to the value it captured and leaves
    the props, the dependencies and the other timer as they are. *)
Lemma db_fire_eq id now st st' :
  settled st -> fire id now st = Some st' ->
  exists tm,
    Host.live (timers st) !! id = Some tm /\ Host.due tm <= now /\
    st' = on_timeout (Host.action tm) now (Host.clearTimeout id (timers st)) st.
Proof.
  intros (Hf & E1 & E2). unfold fire, Host.take.
  destruct (Host.live (timers st) !! id) as [tm|]; [|discriminate].
  destruct (Z.leb_spec (Host.due tm) now) as [Hd|Hd]; [|discriminate].
  intros [= <-]. exists tm. split; [reflexivity|]. split; [exact Hd|].
  assert (settled (on_timeout (Host.action tm) now (Host.clearTimeout id (timers st)) st))
    as Hs by (destruct (Host.action tm); unfold settled; cbn; rewrite ?Hf; auto).
  unfold settle.
  rewrite (db_commit_settled now (on_timeout _ _ _ _)) by exact Hs.
  apply db_commit_settled. exact Hs.
Qed.

Lemma db_stable_fire id now st st' :
  settled st -> tidy st -> fire id now st = Some st' -> settled st' /\ tidy st'.
Proof.
  intros Hs Ht Hfire.
  destruct (db_fire_eq id now st st' Hs Hfire) as (tm & _ & _ & ->).
  destruct Hs as (Hf & E1 & E2). split.
  - destruct (Host.action tm); unfold settled; cbn; rewrite ?Hf; auto.
  - intros i His.
    assert (is_Some (Host.live (timers st) !! i)) as His'.
    { destruct (Host.action tm); cbn in His;
        apply lookup_delete_is_Some in His as [_ His]; exact His. }
    destruct (Ht i His') as (c & Ec & Hc). exists c.
    split; [|exact Hc]. destruct (Host.action tm); exact Ec.
Qed.

(** Every state of a mounted gate is settled and tidy. *)
Lemma db_reachable_stable st : reachable st -> settled st /\ tidy st.
Proof.
  induction 1 as [v o now | v o now st _ [Hs Ht] | id now st st' _ [Hs Ht] Hfire].
  - split; [apply db_settled_mount | apply db_tidy_mount].
  - apply db_stable_useDebounce; assumption.
  - eapply db_stable_fire; eassumption.
Qed.

(** The ideal host does nothing while no timer is due. *)
Lemma db_advance_none_due t st :
  (forall id tm, Host.live (timers st) !! id = Some tm -> t < Host.due tm) ->
  advance t st = st.
Proof.
  intros Hd. unfold advance, Ideal.advance.
  destruct (size (Host.live (timers st))); [reflexivity|]. simpl.
  destruct (Host.earliest (timers st)) as [[id tm]|] eqn:E; [|reflexivity].
  apply earliest_live in E. apply Hd in E.
  destruct (Z.leb_spec (Host.due tm) t); [lia | reflexivity].
Qed.

(** Renders that bring a new value less than [gap] after one another, with
    [gap] at most [delay] and at most [maxWait]: however long the burst
    lasts, nothing is emitted while it lasts. *)
Lemma db_burst_emits_nothing o gap evs :
  gap <= delay_of o ->
  (truthy (maxWait o) = true -> gap <= default 0 (maxWait o)) ->
  forall t v st,
    settled st -> tidy st ->
    deps1 st = Some (v, delay_of o, leading_of o, maxWait o, false) ->
    (forall id tm, Host.live (timers st) !! id = Some tm -> t + gap <= Host.due tm) ->
    burst_after gap t v evs ->
    emitted (run o evs st) = emitted st /\
    debouncedValue (run o evs st) = debouncedValue st.
Proof.
  intros Hg Hm. induction evs as [|[t' v'] evs IH]; intros t v st Hs Ht D Hd Hb.
  - split; reflexivity.
  - destruct Hb as (Ht' & Hv & Hb). cbn [run].
    rewrite db_advance_none_due by (intros id tm El; apply Hd in El; lia).
    assert (deps1 st <> Some (v', delay_of o, leading_of o, maxWait o, false)) as D'
      by (rewrite D; congruence).
    destruct (db_update_rearms v' o t' st Ht (proj1 Hs) D')
      as (Ev & _ & Ee & _ & E1 & _ & _ & Et).
    destruct (db_stable_useDebounce v' o t' st Hs Ht) as [Hs' Ht'0].
    destruct (IH t' v' (useDebounce v' o t' st) Hs' Ht'0 E1) as [P Q].
    + intros id tm El. rewrite Et in El.
      destruct (truthy (maxWait o)) eqn:Em; cbn [Host.live] in El.
      * apply lookup_insert_Some in El as [[_ <-] | [_ El]].
        { specialize (Hm eq_refl). cbn [Host.due]. lia. }
        apply lookup_singleton_Some in El as [_ <-]. cbn [Host.due]. lia.
      * apply lookup_singleton_Some in El as [_ <-]. cbn [Host.due]. lia.
    + exact Hb.
    + split; congruence.
Qed.

(** After unmount no timer is left to fire. *)
Lemma db_unmount_silent st :
  tidy st -> forall i t, fire i t (unmount st) = None.
Proof.
  intros Ht i t. unfold fire.
  rewrite take_none; [reflexivity|]. simpl. apply db_run_cleanup_live. exact Ht.
Qed.
End DebounceFacts.

(** ** The claims about the throttle gates *)

Section Claims.
Import ThrottleOptions.



Ltac window :=
  unfold Scenario.config, delay_of, leading_of, trailing_of;
  cbn [default from_option id delay leading trailing andb];
  first [ reflexivity | lia | (apply Z.leb_gt; lia) | discriminate | congruence ].

(** C3, the scenario run with the first call made when the clock reads
    1000.  The call carrying E (at 1130) comes 30 ms after the trailing
    emission of D (at 1100), inside the window that emission opened: E is
    not emitted at 1130, it is stored as the pending payload. *)
Lemma C3_payload_E_is_not_leading :
  ThrottleCallback.calls (Scenario.callback_gate tt 1000)
  = [ThrottleCallback.Call 1000 tt "A"%string;
     ThrottleCallback.Call 1100 tt "D"%string] /\
  ~ List.In (ThrottleCallback.Call 1130 tt "E"%string)
      (ThrottleCallback.calls (Scenario.callback_gate tt 1000)) /\
  ThrottleCallback.pendingArgsRef (Scenario.callback_gate tt 1000) = Some "E"%string /\
  ThrottleValue.emitted (Scenario.value_gate 1000)
  = [(1000, "A"%string); (1100, "D"%string)] /\
  ~ List.In (1130, "E"%string) (ThrottleValue.emitted (Scenario.value_gate 1000)) /\
  ThrottleValue.throttledValue (Scenario.value_gate 1000) = "D"%string.
Proof.
  vm_compute. repeat split; try reflexivity.
  - intros [E | [E | []]]; discriminate E.
  - intros [E | [E | []]]; discriminate E.
Qed.

(** C3.  [delay = 100], [leading = true], [trailing = true], calls at 0,
    30, 60, 90, 130 after a clock reading [t0] (at least [delay] for
    Throttle-Callback), payloads A to E, timers firing when due: A is
    emitted at [t0] on the leading edge; the trailing emission of D fires at
    [t0 + 100] and re-anchors the window there; the call carrying E, 30 ms
    later, emits nothing: E becomes the pending payload, its timer is due at
    [t0 + 200], and E is emitted then. *)
Theorem C3_scenario_trailing_fire_reanchors_window :
  (forall (F : Type) (f : F) t0,
      100 <= t0 ->
      let st := Scenario.callback_gate f t0 in
      ThrottleCallback.calls st
      = [ThrottleCallback.Call t0 f "A"%string;
         ThrottleCallback.Call (t0 + 100) f "D"%string] /\
      ThrottleCallback.lastExecutedRef st = t0 + 100 /\
      ThrottleCallback.pendingArgsRef st = Some "E"%string /\
      (exists id, Host.live (ThrottleCallback.timers st)
                  = {[ id := Host.Timer (t0 + 200) tt ]}) /\
      ThrottleCallback.calls (ThrottleCallback.advance (t0 + 200) st)
      = [ThrottleCallback.Call t0 f "A"%string;
         ThrottleCallback.Call (t0 + 100) f "D"%string;
         ThrottleCallback.Call (t0 + 200) f "E"%string]) /\
  (forall t0,
      let st := Scenario.value_gate t0 in
      ThrottleValue.emitted st = [(t0, "A"%string); (t0 + 100, "D"%string)] /\
      ThrottleValue.lastExecutedRef st = t0 + 100 /\
      ThrottleValue.throttledValue st = "D"%string /\
      (exists id, Host.live (ThrottleValue.timers st)
                  = {[ id := Host.Timer (t0 + 200) "E"%string ]}) /\
      ThrottleValue.emitted (ThrottleValue.advance (t0 + 200) st)
      = [(t0, "A"%string); (t0 + 100, "D"%string); (t0 + 200, "E"%string)]).
Proof.
  split.
  - intros F f t0 H0 st.
    assert (st = ThrottleCallback.pending_gate (t0 + 100) 4 (t0 + 200) "E"%string f
                   [ThrottleCallback.Call t0 f "A"%string;
                    ThrottleCallback.Call (t0 + 100) f "D"%string]) as E.
    { subst st. unfold Scenario.callback_gate, Scenario.burst.
      cbn [app ThrottleCallback.run].
      rewrite tc_mount_idle, tc_advance_idle_gate.
      rewrite tc_call_idle_leading by window.
      rewrite tc_advance_idle_gate.
      rewrite (tc_call_idle_trailing _ _ _ _ _ _ _ (t0 + 100)) by window.
      rewrite tc_advance_pending_early by lia.
      rewrite (tc_call_pending_trailing _ _ _ _ _ _ _ _ _ (t0 + 100)) by window.
      rewrite tc_advance_pending_early by lia.
      rewrite (tc_call_pending_trailing _ _ _ _ _ _ _ _ _ (t0 + 100)) by window.
      rewrite tc_advance_pending_due by lia.
      rewrite (tc_call_idle_trailing _ _ _ _ _ _ _ (t0 + 200)) by window.
      reflexivity. }
    rewrite E. rewrite tc_advance_pending_due by lia. simpl.
    repeat split; try reflexivity. eexists. reflexivity.
  - intros t0 st.
    assert (st = ThrottleValue.pending_gate "D"%string (t0 + 100)
                   (Some ("E"%string, 100, true, true)) 4 (t0 + 200) "E"%string
                   [(t0, "A"%string); (t0 + 100, "D"%string)]) as E.
    { subst st. unfold Scenario.value_gate, Scenario.burst.
      cbn [app tl ThrottleValue.run].
      rewrite tv_mount_idle by window.
      rewrite tv_advance_idle_gate.
      rewrite (tv_render_idle_trailing _ _ _ _ _ _ _ _ _ _ (t0 + 100)) by window.
      rewrite tv_advance_pending_early by lia.
      rewrite (tv_render_pending_trailing _ _ _ _ _ _ _ _ _ _ (t0 + 100)) by window.
      rewrite tv_advance_pending_early by lia.
      rewrite (tv_render_pending_trailing _ _ _ _ _ _ _ _ _ _ (t0 + 100)) by window.
      rewrite tv_advance_pending_due by lia.
      rewrite (tv_render_idle_trailing _ _ _ _ _ _ _ _ _ _ (t0 + 200)) by window.
      reflexivity. }
    rewrite E. rewrite tv_advance_pending_due by lia. simpl.
    repeat split; try reflexivity. eexists. reflexivity.
Qed.

(** [useThrottleCallback] has no first-call flag: were the clock to read 0
    at the first call, [lastExecutedRef = 0] would pass for a call just
    made and A would be held back as a trailing payload. *)
Example throttle_callback_scenario_at_clock_zero :
  ThrottleCallback.calls (ThrottleCallback.advance 200 (Scenario.callback_gate tt 0))
  = [ThrottleCallback.Call 100 tt "D"%string;
     ThrottleCallback.Call 200 tt "E"%string].
Proof. vm_compute. reflexivity. Qed.

(** C3 at work: the clock reads 1000 at the first call. *)
Lemma C3_scenario_witness :
  100 <= 1000 /\
  ThrottleCallback.calls
    (ThrottleCallback.advance (1000 + 200) (Scenario.callback_gate tt 1000))
  = [ThrottleCallback.Call 1000 tt "A"%string;
     ThrottleCallback.Call (1000 + 100) tt "D"%string;
     ThrottleCallback.Call (1000 + 200) tt "E"%string].
Proof.
  assert (100 <= 1000) as H by lia.
  split; [exact H|].
  exact (proj2 (proj2 (proj2 (proj2
    (proj1 C3_scenario_trailing_fire_reanchors_window unit tt 1000 H))))).
Defined.

(** C5, [cancel] inside a running window.  A call made at 1050, after a
    leading call at 1000, a pending call at 1030 and [cancel], is still
    inside the window of the call at 1000: it is not emitted, although
    [leading = true]; [cancel] did not close the window. *)
Lemma C5_call_after_cancel_is_not_emitted :
  let st :=
    ThrottleCallback.cancel
      (ThrottleCallback.throttledCallback Scenario.config 1030 "B"%string
         (ThrottleCallback.throttledCallback Scenario.config 1000 "A"%string
            (ThrottleCallback.mount tt))) in
  leading_of Scenario.config = true /\
  ThrottleCallback.isThrottled st = false /\
  ThrottleCallback.pendingArgsRef st = None /\
  ThrottleCallback.calls (ThrottleCallback.throttledCallback Scenario.config 1050 "C"%string st)
  = [ThrottleCallback.Call 1000 tt "A"%string] /\
  ~ List.In (ThrottleCallback.Call 1050 tt "C"%string)
      (ThrottleCallback.calls
         (ThrottleCallback.throttledCallback Scenario.config 1050 "C"%string st)) /\
  ThrottleCallback.pendingArgsRef
    (ThrottleCallback.throttledCallback Scenario.config 1050 "C"%string st)
  = Some "C"%string.
Proof.
  vm_compute. repeat split; try reflexivity.
  intros [E | []]; discriminate E.
Qed.

(** C5.  Throttle-Callback: [cancel] discards the pending trailing
    emission and clears its timer, which can no longer fire, without calling
    the wrapped function, and clears [isThrottled]; it leaves the
    last-execution anchor as it was, so the window keeps running: a later
    call with [leading = true] is emitted at once when at least [delay] has
    passed since the last execution, and emits nothing at that moment
    otherwise; with nothing pending, [cancel] changes nothing. *)
Theorem C5_cancel_discards_pending_keeps_anchor :
  forall (F A : Type) (st : ThrottleCallback.state F A),
    ThrottleCallback.coherent st ->
    let st' := ThrottleCallback.cancel st in
    ThrottleCallback.coherent st' /\
    Host.live (ThrottleCallback.timers st') = ∅ /\
    (forall i t, ThrottleCallback.fire i t st' = None) /\
    ThrottleCallback.timeoutRef st' = None /\
    ThrottleCallback.pendingArgsRef st' = None /\
    ThrottleCallback.isThrottled st' = false /\
    ThrottleCallback.calls st' = ThrottleCallback.calls st /\
    ThrottleCallback.lastExecutedRef st' = ThrottleCallback.lastExecutedRef st /\
    (forall o now a,
        leading_of o = true ->
        (delay_of o <= now - ThrottleCallback.lastExecutedRef st ->
         ThrottleCallback.calls (ThrottleCallback.throttledCallback o now a st')
         = ThrottleCallback.calls st
             ++ [ThrottleCallback.Call now (ThrottleCallback.callbackRef st) a]) /\
        (now - ThrottleCallback.lastExecutedRef st < delay_of o ->
         ThrottleCallback.calls (ThrottleCallback.throttledCallback o now a st')
         = ThrottleCallback.calls st)) /\
    (ThrottleCallback.isThrottled st = false -> st' = st).
Proof.
  intros F A st Hc st'.
  assert (ThrottleCallback.coherent st') as Hc' by (apply tc_coherent_cancel; exact Hc).
  assert (Host.live (ThrottleCallback.timers st') = ∅) as El
    by (apply tc_clear_ref_live; exact Hc).
  split; [exact Hc'|]. split; [exact El|].
  split; [intros i t; apply tc_fire_idle; exact El|].
  do 5 (split; [reflexivity|]).
  split.
  - intros o now a L. split; intros Hd.
    + rewrite tc_throttledCallback_leading; [reflexivity | exact Hc' |].
      unfold ThrottleCallback.leading_edge. rewrite L. simpl.
      apply Z.leb_le. exact Hd.
    + assert (ThrottleCallback.leading_edge o now st' = false) as Le.
      { unfold ThrottleCallback.leading_edge. rewrite L. simpl.
        apply Z.leb_gt. exact Hd. }
      destruct (trailing_of o) eqn:Tr.
      * rewrite tc_throttledCallback_trailing by assumption. reflexivity.
      * rewrite tc_throttledCallback_dropped by assumption. reflexivity.
  - intros Et. subst st'. unfold ThrottleCallback.coherent in Hc.
    destruct st as [thr last ref pend f h cs]. simpl in *.
    destruct ref as [id|].
    + destruct Hc as (_ & _ & Et'). congruence.
    + destruct Hc as (_ & -> & _). subst thr. reflexivity.
Qed.

(** C5 at work: [cancel] while B is pending. *)
Lemma C5_cancel_witness :
  let st :=
    ThrottleCallback.throttledCallback Scenario.config 1030 "B"%string
      (ThrottleCallback.throttledCallback Scenario.config 1000 "A"%string
         (ThrottleCallback.mount tt)) in
  ThrottleCallback.isThrottled st = true /\
  ThrottleCallback.isThrottled (ThrottleCallback.cancel st) = false /\
  ThrottleCallback.calls (ThrottleCallback.cancel st) = ThrottleCallback.calls st.
Proof.
  intros st.
  assert (ThrottleCallback.coherent st) as Hc
    by (do 2 apply tc_coherent_throttledCallback; apply tc_coherent_mount).
  destruct (C5_cancel_discards_pending_keeps_anchor unit string st Hc)
    as (_ & _ & _ & _ & _ & P & Q & _).
  split; [reflexivity|]. split; assumption.
Defined.

(** C6.  Throttle-Callback: [flush] calls the wrapped function, at once and
    with the pending arguments, exactly when a trailing emission is pending,
    and then clears the timer, the pending arguments and [isThrottled]; with
    nothing pending it changes nothing; a second [flush] right after the
    first changes nothing, so two of them make at most one call. *)
Theorem C6_flush_invokes_pending_once :
  forall (F A : Type) (st : ThrottleCallback.state F A) now,
    ThrottleCallback.coherent st ->
    let st' := ThrottleCallback.flush now st in
    (ThrottleCallback.isThrottled st = true ->
     exists a,
       ThrottleCallback.pendingArgsRef st = Some a /\
       ThrottleCallback.calls st'
       = ThrottleCallback.calls st
           ++ [ThrottleCallback.Call now (ThrottleCallback.callbackRef st) a] /\
       Host.live (ThrottleCallback.timers st') = ∅ /\
       ThrottleCallback.timeoutRef st' = None /\
       ThrottleCallback.pendingArgsRef st' = None /\
       ThrottleCallback.isThrottled st' = false) /\
    (ThrottleCallback.isThrottled st = false -> st' = st) /\
    (ThrottleCallback.calls st' <> ThrottleCallback.calls st <->
     ThrottleCallback.isThrottled st = true) /\
    (forall now', ThrottleCallback.flush now' st' = st') /\
    (forall now',
        (length (ThrottleCallback.calls (ThrottleCallback.flush now' st'))
         <= S (length (ThrottleCallback.calls st)))%nat).
Proof.
  intros F A st now Hc st'.
  assert (ThrottleCallback.isThrottled st' = false) as Et'.
  { subst st'. unfold ThrottleCallback.flush, ThrottleCallback.coherent in *.
    destruct (ThrottleCallback.timeoutRef st) as [id|].
    - destruct Hc as (_ & [a Ea] & _). rewrite Ea. reflexivity.
    - destruct Hc as (_ & _ & Et). exact Et. }
  assert (forall s : ThrottleCallback.state F A,
             ThrottleCallback.coherent s ->
             ThrottleCallback.isThrottled s = false ->
             forall t, ThrottleCallback.flush t s = s) as Noop.
  { intros s Hs Et t. unfold ThrottleCallback.flush, ThrottleCallback.coherent in *.
    destruct (ThrottleCallback.timeoutRef s) as [id|]; [|reflexivity].
    destruct Hs as (_ & _ & Et2). congruence. }
  assert (ThrottleCallback.isThrottled st = true ->
          exists a,
            ThrottleCallback.pendingArgsRef st = Some a /\
            ThrottleCallback.calls st'
            = ThrottleCallback.calls st
                ++ [ThrottleCallback.Call now (ThrottleCallback.callbackRef st) a] /\
            Host.live (ThrottleCallback.timers st') = ∅ /\
            ThrottleCallback.timeoutRef st' = None /\
            ThrottleCallback.pendingArgsRef st' = None /\
            ThrottleCallback.isThrottled st' = false) as Pend.
  { intros Et. subst st'. pose proof (tc_clear_ref_live st Hc) as El.
    unfold ThrottleCallback.flush, ThrottleCallback.clear_ref,
      ThrottleCallback.coherent in Hc, El |- *.
    destruct (ThrottleCallback.timeoutRef st) as [id|].
    - destruct Hc as (_ & [a Ea] & _). exists a. rewrite Ea. simpl in El |- *.
      repeat split; try reflexivity. exact El.
    - destruct Hc as (_ & _ & Et2). congruence. }
  split; [exact Pend|].
  split; [intros Et; apply Noop; assumption|].
  split.
  { split.
    - intros Hne. destruct (ThrottleCallback.isThrottled st) eqn:Et; [reflexivity|].
      exfalso. apply Hne. subst st'. rewrite Noop by assumption. reflexivity.
    - intros Et. destruct (Pend Et) as (a & _ & Ecalls & _). rewrite Ecalls.
      intros E. apply (f_equal (@length _)) in E. rewrite length_app in E.
      simpl in E. lia. }
  assert (forall now', ThrottleCallback.flush now' st' = st') as Idem.
  { intros now'. apply Noop; [|exact Et']. apply tc_coherent_flush. exact Hc. }
  split; [exact Idem|].
  intros now'. rewrite Idem.
  destruct (ThrottleCallback.isThrottled st) eqn:Et.
  - destruct (Pend eq_refl) as (a & _ & Ecalls & _). rewrite Ecalls, length_app.
    simpl. lia.
  - subst st'. rewrite Noop by assumption. lia.
Qed.

(** C6 at work: two calls of [flush] while B is pending. *)
Lemma C6_flush_witness :
  let st :=
    ThrottleCallback.throttledCallback Scenario.config 1030 "B"%string
      (ThrottleCallback.throttledCallback Scenario.config 1000 "A"%string
         (ThrottleCallback.mount tt)) in
  ThrottleCallback.isThrottled st = true /\
  ThrottleCallback.flush 1050 (ThrottleCallback.flush 1040 st)
  = ThrottleCallback.flush 1040 st.
Proof.
  intros st.
  assert (ThrottleCallback.coherent st) as Hc
    by (do 2 apply tc_coherent_throttledCallback; apply tc_coherent_mount).
  destruct (C6_flush_invokes_pending_once unit string st 1040 Hc)
    as (_ & _ & _ & P & _).
  split; [reflexivity | exact (P 1050)].
Defined.

(** C7.  Throttle-Callback: a trailing call scheduled while the function
    reference was [f0] and made, by the timer or by [flush], after further
    renders, the last of them with [f1], calls [f1]. *)
Theorem C7_trailing_call_uses_latest_reference :
  forall (F A : Type) (st0 : ThrottleCallback.state F A) o now a f0 fs f1,
    ThrottleCallback.coherent st0 ->
    ThrottleCallback.leading_edge o now st0 = false ->
    trailing_of o = true ->
    let scheduled :=
      ThrottleCallback.throttledCallback o now a (ThrottleCallback.render f0 st0) in
    let st := ThrottleCallback.renders (fs ++ [f1]) scheduled in
    let due := now + Z.max 0 (delay_of o - (now - ThrottleCallback.lastExecutedRef st0)) in
    ThrottleCallback.callbackRef scheduled = f0 /\
    (forall t,
        ThrottleCallback.calls (ThrottleCallback.flush t st)
        = ThrottleCallback.calls st0 ++ [ThrottleCallback.Call t f1 a]) /\
    exists id,
      ThrottleCallback.timeoutRef st = Some id /\
      forall t,
        due <= t ->
        exists st',
          ThrottleCallback.fire id t st = Some st' /\
          ThrottleCallback.calls st'
          = ThrottleCallback.calls st0 ++ [ThrottleCallback.Call t f1 a].
Proof.
  intros F A st0 o now a f0 fs f1 Hc L Tr scheduled st due.
  assert (scheduled =
          ThrottleCallback.pending_gate (ThrottleCallback.lastExecutedRef st0)
            (Host.next_handle (ThrottleCallback.timers st0)) due a f0
            (ThrottleCallback.calls st0)) as E.
  { subst scheduled. rewrite tc_throttledCallback_trailing.
    - reflexivity.
    - apply tc_coherent_render. exact Hc.
    - exact L.
    - exact Tr. }
  subst st. rewrite tc_renders_last, E. simpl.
  split; [reflexivity|]. split; [reflexivity|].
  eexists. split; [reflexivity|].
  intros t Hd. eexists. split.
  - eapply tc_fire_pending; [reflexivity | reflexivity | reflexivity | exact Hd].
  - reflexivity.
Qed.

(** C7 at work: B is scheduled under reference 1 and flushed under 3. *)
Lemma C7_latest_reference_witness :
  let st0 :=
    ThrottleCallback.throttledCallback Scenario.config 1000 "A"%string
      (ThrottleCallback.mount 0%nat) in
  ThrottleCallback.leading_edge Scenario.config 1030 st0 = false /\
  ThrottleCallback.calls
    (ThrottleCallback.flush 1050
       (ThrottleCallback.renders ([2%nat] ++ [3%nat])
          (ThrottleCallback.throttledCallback Scenario.config 1030 "B"%string
             (ThrottleCallback.render 1%nat st0))))
  = ThrottleCallback.calls st0 ++ [ThrottleCallback.Call 1050 3%nat "B"%string].
Proof.
  intros st0.
  assert (ThrottleCallback.coherent st0) as Hc
    by (apply tc_coherent_throttledCallback, tc_coherent_mount).
  assert (ThrottleCallback.leading_edge Scenario.config 1030 st0 = false) as L
    by reflexivity.
  assert (trailing_of Scenario.config = true) as Tr by reflexivity.
  destruct (C7_trailing_call_uses_latest_reference nat string st0 Scenario.config
              1030 "B"%string 1%nat [2%nat] 3%nat Hc L Tr) as (_ & P & _).
  split; [exact L | exact (P 1050)].
Defined.

(** C10.  Throttle-Callback, [leading = false], [trailing = true]: on the
    first call ever, made when the clock reads more than [delay], the anchor
    is still [0], the remaining delay [delay - (now - 0)] is negative and is
    clamped to [0]: nothing is called at once, the arguments are pending and
    their timer is due at [now] itself, not at [now + delay]; it fires on
    the next tick and calls the function with these arguments. *)
Theorem C10_first_trailing_call_waits_zero :
  forall (F A : Type) (f : F) o now (a : A),
    leading_of o = false ->
    trailing_of o = true ->
    delay_of o < now ->
    let st := ThrottleCallback.throttledCallback o now a (ThrottleCallback.mount f) in
    ThrottleCallback.lastExecutedRef (ThrottleCallback.mount (A := A) f) = 0 /\
    delay_of o - (now - 0) < 0 /\
    Z.max 0 (delay_of o - (now - 0)) = 0 /\
    ThrottleCallback.calls st = [] /\
    ThrottleCallback.pendingArgsRef st = Some a /\
    ThrottleCallback.isThrottled st = true /\
    exists id,
      ThrottleCallback.timeoutRef st = Some id /\
      Host.live (ThrottleCallback.timers st) = {[ id := Host.Timer now tt ]} /\
      (forall t, now <= t ->
                 exists st',
                   ThrottleCallback.fire id t st = Some st' /\
                   ThrottleCallback.calls st' = [ThrottleCallback.Call t f a]) /\
      ThrottleCallback.calls (ThrottleCallback.advance now st)
      = [ThrottleCallback.Call now f a].
Proof.
  intros F A f o now a L Tr Hd st.
  assert (st = ThrottleCallback.pending_gate 0 1 now a f []) as E.
  { subst st. rewrite tc_mount_idle.
    apply tc_call_idle_trailing.
    - rewrite L. reflexivity.
    - exact Tr.
    - lia. }
  rewrite E. simpl.
  split; [reflexivity|]. split; [lia|]. split; [lia|].
  do 3 (split; [reflexivity|]).
  exists 1%nat. split; [reflexivity|]. split; [reflexivity|]. split.
  - intros t Ht. eexists. split.
    + eapply tc_fire_pending; [reflexivity | reflexivity | reflexivity | exact Ht].
    + reflexivity.
  - rewrite tc_advance_pending_due by lia. reflexivity.
Qed.

(** C10 at work: [delay = 100], first call when the clock reads 1000. *)
Lemma C10_first_trailing_call_witness :
  let o := Options (Some 100) (Some false) None in
  (leading_of o = false /\ trailing_of o = true /\ delay_of o < 1000) /\
  ThrottleCallback.calls
    (ThrottleCallback.advance 1000
       (ThrottleCallback.throttledCallback o 1000 "A"%string
          (ThrottleCallback.mount tt)))
  = [ThrottleCallback.Call 1000 tt "A"%string].
Proof.
  intros o.
  assert (leading_of o = false) as L by reflexivity.
  assert (trailing_of o = true) as Tr by reflexivity.
  assert (delay_of o < 1000) as Hd by (vm_compute; reflexivity).
  destruct (C10_first_trailing_call_waits_zero unit string tt o 1000 "A"%string L Tr Hd)
    as (_ & _ & _ & _ & _ & _ & id & _ & _ & _ & P).
  repeat split; assumption.
Defined.

(** ** The claims about the debounce gate and about construction *)

(** C2, a burst longer than [maxWait].  [delay = 100], [maxWait = 250];
    the hook is mounted with "a" at 1000 and rendered with a new value every
    50 ms from 1050 to 1400, timers firing when due.  The burst has lasted 350 ms, more
    than [maxWait], and nothing has been emitted: the output is still "a".
    Every render cleared the max-wait timer and armed it anew, so that it is
    now due at 1400 + 250; the only emission to come is that of the
    quiescence timer, at 1500. *)
Theorem C2_maxwait_timer_restarts_with_every_update :
  Debounce.emitted Scenario.debounce_gate = [] /\
  Debounce.debouncedValue Scenario.debounce_gate = "a"%string /\
  Debounce.cleanup1 Scenario.debounce_gate = Some (Debounce.Cleanup 18 (Some 19%nat)) /\
  Host.live (Debounce.timers Scenario.debounce_gate) !! 19%nat
  = Some (Host.Timer (1400 + 250) (Debounce.OnMaxWait "i"%string)) /\
  Debounce.emitted (Debounce.advance 1500 Scenario.debounce_gate)
  = [(1500, "i"%string)].
Proof. vm_compute. repeat split; reflexivity. Qed.

(** C8, construction with negative options.  A Debounce gate with
    [delay = -5] and [maxWait = -1], a Throttle-Value gate and a
    Throttle-Callback gate with [delay = -5]: none is rejected. *)
Lemma C8_negative_delay_is_accepted :
  let o := Debounce.Options (Some (-5)) None (Some (-1)) in
  let o' := Options (Some (-5)) None None in
  Debounce.delay_of o < 0 /\
  Construction.debounce "x"%string o 1000 <> Construction.Rejected /\
  delay_of o' < 0 /\
  Construction.throttle "x"%string o' 1000 <> Construction.Rejected /\
  Construction.throttleCallback (A := string) tt o' <> Construction.Rejected.
Proof.
  intros o o'. repeat split; try discriminate; vm_compute; reflexivity.
Qed.

(** C8.  No gate validates its options: construction accepts every
    configuration, negative [delay] and [maxWait] included.  A negative wait
    is then counted as zero when a timer is armed: the quiescence timer that
    a Debounce gate with a negative [delay] arms at construction is due at
    once, and so is the trailing timer of a Throttle-Callback gate with a
    negative [delay]. *)
Theorem C8_negative_options_are_accepted_and_clamped :
  (forall (T : Type) (dec : EqDecision T) (v : T) o now,
      Construction.debounce v o now = Construction.Accepted (Debounce.mount v o now)) /\
  (forall (T : Type) (dec : EqDecision T) (v : T) o now,
      Construction.throttle v o now
      = Construction.Accepted (ThrottleValue.mount v o now)) /\
  (forall (F A : Type) (f : F) o,
      Construction.throttleCallback (A := A) f o
      = Construction.Accepted (ThrottleCallback.mount f)) /\
  (forall (T : Type) (dec : EqDecision T) (v : T) o now,
      Debounce.delay_of o < 0 ->
      exists c,
        Debounce.cleanup1 (Debounce.mount v o now) = Some c /\
        Host.live (Debounce.timers (Debounce.mount v o now)) !! Debounce.timer c
        = Some (Host.Timer now (Debounce.OnTimer v))) /\
  (forall (F A : Type) (st : ThrottleCallback.state F A) o now a,
      ThrottleCallback.coherent st ->
      delay_of o < 0 ->
      ThrottleCallback.lastExecutedRef st <= now ->
      ThrottleCallback.leading_edge o now st = false ->
      trailing_of o = true ->
      exists id,
        ThrottleCallback.timeoutRef (ThrottleCallback.throttledCallback o now a st)
        = Some id /\
        Host.live (ThrottleCallback.timers (ThrottleCallback.throttledCallback o now a st))
        = {[ id := Host.Timer now tt ]}).
Proof.
  split; [reflexivity|]. split; [reflexivity|]. split; [reflexivity|]. split.
  - intros T dec v o now Hd.
    assert (now + Z.max 0 (Debounce.delay_of o) = now) as E by lia.
    destruct (Debounce.leading_of o) eqn:L.
    + rewrite db_mount_leading by exact L. rewrite E.
      eexists. split; [reflexivity|]. cbn [Debounce.timer Debounce.timers].
      destruct (Debounce.truthy (Debounce.maxWait o)); cbn [Host.live].
      * rewrite lookup_insert_ne by discriminate. apply lookup_singleton_eq.
      * apply lookup_singleton_eq.
    + rewrite db_mount_trailing by exact L. rewrite E.
      eexists. split; [reflexivity|]. cbn [Debounce.timer Debounce.timers].
      destruct (Debounce.truthy (Debounce.maxWait o)); cbn [Host.live].
      * rewrite lookup_insert_ne by discriminate. apply lookup_singleton_eq.
      * apply lookup_singleton_eq.
  - intros F A st o now a Hc Hd Hl L Tr.
    rewrite tc_throttledCallback_trailing by assumption.
    cbn [ThrottleCallback.timeoutRef ThrottleCallback.timers Host.live].
    eexists. split; [reflexivity|].
    replace (now + Z.max 0 (delay_of o - (now - ThrottleCallback.lastExecutedRef st)))
      with now by lia.
    reflexivity.
Qed.

(** C8 at work: [delay = -5], the clock reads 1000. *)
Lemma C8_negative_options_witness :
  let o := Debounce.Options (Some (-5)) None None in
  let o' := Options (Some (-5)) (Some false) None in
  let st := ThrottleCallback.mount (A := string) tt in
  (Debounce.delay_of o < 0 /\ delay_of o' < 0 /\
   ThrottleCallback.lastExecutedRef st <= 1000) /\
  (exists c,
      Debounce.cleanup1 (Debounce.mount "x"%string o 1000) = Some c /\
      Host.live (Debounce.timers (Debounce.mount "x"%string o 1000)) !! Debounce.timer c
      = Some (Host.Timer 1000 (Debounce.OnTimer "x"%string))) /\
  (exists id,
      ThrottleCallback.timeoutRef
        (ThrottleCallback.throttledCallback o' 1000 "x"%string st) = Some id /\
      Host.live (ThrottleCallback.timers
                   (ThrottleCallback.throttledCallback o' 1000 "x"%string st))
      = {[ id := Host.Timer 1000 tt ]}).
Proof.
  intros o o' st.
  assert (Debounce.delay_of o < 0) as H1 by (vm_compute; reflexivity).
  assert (delay_of o' < 0) as H2 by (vm_compute; reflexivity).
  assert (ThrottleCallback.lastExecutedRef st <= 1000) as H3
    by (vm_compute; discriminate).
  assert (ThrottleCallback.coherent st) as H4 by apply tc_coherent_mount.
  assert (ThrottleCallback.leading_edge o' 1000 st = false) as H5 by reflexivity.
  assert (trailing_of o' = true) as H6 by reflexivity.
  destruct C8_negative_options_are_accepted_and_clamped as (_ & _ & _ & P & Q).
  split; [repeat split; assumption|]. split.
  - exact (P string _ "x"%string o 1000 H1).
  - exact (Q unit string st o' 1000 "x"%string H4 H2 H3 H5 H6).
Defined.

End Claims.

(** * Further properties of the gates *)

(** ** Spacing of times *)

Lemma spaced_snoc d ts t :
  Spacing.spaced d ts -> List.last ts 0 + d <= t -> Spacing.spaced d (ts ++ [t]).
Proof.
  induction ts as [|t1 rest IH]; intros Hs Hl; [simpl; auto|].
  destruct rest as [|t2 rest].
  - simpl in *. auto.
  - destruct Hs as [H12 Hs]. split; [exact H12|]. apply IH; assumption.
Qed.

Lemma last_snoc_time (ts : list Z) t : List.last (ts ++ [t]) 0 = t.
Proof. apply last_last. Qed.

(** ** Histories of [useThrottleCallback] *)

Section ThrottleCallbackHistories.
Import ThrottleOptions ThrottleCallback ThrottleCallbackTrace.
Context {F A : Type}.
Implicit Types (st : state F A) (o : UseThrottleOptions) (a : A) (f : F).

(** What the firing of a timer amounts to on a coherent gate. *)
Lemma tcx_fire_cases id t st st' :
  coherent st -> fire id t st = Some st' ->
  exists d a,
    timeoutRef st = Some id /\ pendingArgsRef st = Some a /\
    Host.live (timers st) = {[ id := Host.Timer d tt ]} /\ d <= t /\
    st' = {| isThrottled := false; lastExecutedRef := t;
             timeoutRef := None; pendingArgsRef := None;
             callbackRef := callbackRef st;
             timers := Host.MkHost (Host.next_handle (timers st)) ∅;
             calls := calls st ++ [Call t (callbackRef st) a] |}.
Proof.
  intros Hc Hf. pose proof Hc as Hc'. unfold coherent in Hc'.
  destruct (timeoutRef st) as [i|] eqn:Ei.
  - destruct Hc' as ([[d []] E] & [a Ea] & _).
    destruct (decide (id = i)) as [->|Hne].
    + destruct (Z.le_gt_cases d t) as [Hd|Hd].
      * rewrite (tc_fire_pending st i d a t) in Hf by assumption.
        injection Hf as <-. exists d, a. auto 10.
      * rewrite (tc_fire_early st i d t) in Hf by (assumption || lia). discriminate.
    + unfold fire, Host.take in Hf. rewrite E, lookup_singleton_ne in Hf by congruence.
      discriminate.
  - destruct Hc' as (E & _). rewrite tc_fire_idle in Hf by exact E. discriminate.
Qed.

Lemma tcx_anchor_is_latest_call st :
  reachable st -> lastExecutedRef st = List.last (call_times st) 0.
Proof.
  unfold call_times.
  induction 1 as [f | f st R IH | o now a st R IH | st R IH | now st R IH
                 | id now st st' R IH Hf].
  - reflexivity.
  - exact IH.
  - pose proof (tc_reachable_coherent st R) as Hc.
    destruct (leading_edge o now st) eqn:L.
    + rewrite tc_throttledCallback_leading by assumption. simpl.
      rewrite map_app. simpl. rewrite last_last. reflexivity.
    + destruct (trailing_of o) eqn:Tr.
      * rewrite tc_throttledCallback_trailing by assumption. exact IH.
      * rewrite tc_throttledCallback_dropped by assumption. exact IH.
  - exact IH.
  - unfold flush. destruct (timeoutRef st); [|exact IH].
    destruct (pendingArgsRef st); [|exact IH].
    simpl. rewrite map_app. simpl. rewrite last_last. reflexivity.
  - destruct (tcx_fire_cases id now st st' (tc_reachable_coherent st R) Hf)
      as (d & a & _ & _ & _ & _ & ->).
    simpl. rewrite map_app. simpl. rewrite last_last. reflexivity.
Qed.

Lemma tcx_paced_mount o f : paced o (mount (A := A) f).
Proof.
  split; [apply tc_coherent_mount|]. split; [reflexivity|]. split; [exact I|].
  intros id tm El. simpl in El. rewrite lookup_empty in El. discriminate.
Qed.

Lemma tcx_paced_step o st e :
  is_flush e = false -> paced o st -> paced o (step o st e).
Proof.
  intros Hfl (Hc & Ha & Hs & Hd).
  destruct e as [f | now a | | now | id now]; simpl in *; try discriminate.
  - split; [apply tc_coherent_render; exact Hc|]. auto.
  - destruct (leading_edge o now st) eqn:L.
    + rewrite tc_throttledCallback_leading by assumption.
      unfold leading_edge in L. apply andb_true_iff in L as [_ L].
      apply Z.leb_le in L.
      split; [unfold coherent; simpl; auto|].
      unfold call_times in *. simpl. rewrite map_app. simpl.
      split; [rewrite last_last; reflexivity|].
      split; [apply spaced_snoc; [exact Hs | lia]|].
      intros id tm El. rewrite lookup_empty in El. discriminate.
    + destruct (trailing_of o) eqn:Tr.
      * rewrite tc_throttledCallback_trailing by assumption.
        split; [unfold coherent; simpl; eauto|].
        unfold call_times in *. simpl.
        split; [exact Ha|]. split; [exact Hs|].
        intros id tm El. apply lookup_singleton_Some in El as [_ <-]. simpl. lia.
      * rewrite tc_throttledCallback_dropped by assumption. repeat split; assumption.
  - split; [apply tc_coherent_cancel; exact Hc|].
    unfold call_times in *. simpl. split; [exact Ha|]. split; [exact Hs|].
    intros id tm El. rewrite tc_clear_ref_live in El by exact Hc.
    rewrite lookup_empty in El. discriminate.
  - destruct (fire id now st) as [st'|] eqn:Hf; simpl; [|repeat split; assumption].
    destruct (tcx_fire_cases id now st st' Hc Hf) as (d & a & _ & _ & El & Hle & ->).
    split; [unfold coherent; simpl; auto|].
    unfold call_times in *. simpl. rewrite map_app. simpl.
    split; [rewrite last_last; reflexivity|].
    split.
    + apply spaced_snoc; [exact Hs|]. rewrite <- Ha.
      specialize (Hd id (Host.Timer d tt)). rewrite El, lookup_singleton_eq in Hd.
      specialize (Hd eq_refl). simpl in Hd. lia.
    + intros i tm E'. rewrite lookup_empty in E'. discriminate.
Qed.

Lemma tcx_paced_exec o es st :
  forallb (fun e => negb (is_flush e)) es = true -> paced o st -> paced o (exec o es st).
Proof.
  revert st. induction es as [|e es IH]; intros st Hes Hp; [exact Hp|].
  simpl in Hes. apply andb_true_iff in Hes as [He Hes].
  apply negb_true_iff in He.
  unfold exec. simpl. apply IH; [exact Hes|]. apply tcx_paced_step; assumption.
Qed.
End ThrottleCallbackHistories.

(** ** Histories of [useThrottle] *)

Section ThrottleValueHistories.
Import ThrottleOptions ThrottleValue ThrottleValueTrace.
Context {T : Type} `{EqDecision T}.
Implicit Types (st : state T) (o : UseThrottleOptions) (v : T).

(** What the firing of a timer amounts to on a well-formed gate. *)
Lemma tvx_fire_cases id t st st' :
  wf st -> fire id t st = Some st' ->
  exists d v,
    Host.live (timers st) = {[ id := Host.Timer d v ]} /\ d <= t /\
    st' = {| throttledValue := v; lastExecutedRef := t; timeoutRef := None;
             isFirstCallRef := isFirstCallRef st; deps := deps st;
             cleanup := cleanup st;
             timers := Host.MkHost (Host.next_handle (timers st)) ∅;
             emitted := emitted st ++ [(t, v)] |}.
Proof.
  intros W Hf. destruct W as [E | (_ & i & [d v] & _ & E)].
  - unfold fire in Hf. rewrite take_none in Hf by exact E. discriminate.
  - destruct (decide (id = i)) as [->|Hne].
    + destruct (Z.le_gt_cases d t) as [Hd|Hd].
      * rewrite (tv_fire_pending st i d v t) in Hf by assumption.
        injection Hf as <-. exists d, v. auto.
      * rewrite (tv_fire_early st i d v t) in Hf by (assumption || lia). discriminate.
    + unfold fire, Host.take in Hf. rewrite E, lookup_singleton_ne in Hf by congruence.
      discriminate.
Qed.

Lemma tvx_paced_mount o v t0 : paced o (mount v o t0).
Proof.
  unfold paced, emission_times.
  destruct (bool_decide (leading_of o = true)) eqn:L.
  - apply bool_decide_eq_true in L. rewrite tv_mount_leading by exact L. simpl.
    split; [left; reflexivity|]. do 2 (split; [reflexivity|]). split; [auto|].
    intros id tm El. rewrite lookup_empty in El. discriminate.
  - apply bool_decide_eq_false, not_true_is_false in L.
    assert (leading_edge o t0 (init v) = false) as Le
      by (unfold leading_edge; rewrite L; reflexivity).
    assert (deps (init v) <> Some (v, delay_of o, leading_of o, trailing_of o)) as D
      by discriminate.
    unfold mount.
    destruct (bool_decide (trailing_of o = true)) eqn:Tr.
    + apply bool_decide_eq_true in Tr.
      rewrite tv_useThrottle_trailing by (assumption || apply tv_wf_init). simpl.
      split; [right; simpl; eauto|]. do 2 (split; [reflexivity|]). split; [exact I|].
      intros id tm El. apply lookup_singleton_Some in El as [_ <-]. simpl. lia.
    + apply bool_decide_eq_false, not_true_is_false in Tr.
      rewrite tv_useThrottle_dropped by (assumption || apply tv_wf_init). simpl.
      split; [left; reflexivity|]. do 2 (split; [reflexivity|]). split; [exact I|].
      intros id tm El. rewrite lookup_empty in El. discriminate.
Qed.

Lemma tvx_paced_step o st e : paced o st -> paced o (step o st e).
Proof.
  intros (W & Hfc & Ha & Hs & Hd). unfold paced, emission_times in *.
  destruct e as [v now | id now]; simpl.
  - destruct (decide (deps st = Some (v, delay_of o, leading_of o, trailing_of o)))
      as [D|D].
    { rewrite tv_useThrottle_same by exact D. repeat split; assumption. }
    destruct (leading_edge o now st) eqn:L.
    + rewrite tv_useThrottle_leading by assumption. simpl.
      unfold leading_edge in L. rewrite Hfc, andb_false_r in L. simpl in L.
      apply andb_true_iff in L as [_ L]. apply Z.leb_le in L.
      split; [left; reflexivity|]. split; [reflexivity|].
      rewrite map_app. simpl.
      split; [rewrite last_last; reflexivity|].
      split; [apply spaced_snoc; [exact Hs | lia]|].
      intros id tm El. rewrite lookup_empty in El. discriminate.
    + destruct (bool_decide (trailing_of o = true)) eqn:Tr.
      * apply bool_decide_eq_true in Tr.
        rewrite tv_useThrottle_trailing by assumption. simpl.
        split; [right; simpl; eauto|]. split; [reflexivity|].
        split; [exact Ha|]. split; [exact Hs|].
        intros id tm El. apply lookup_singleton_Some in El as [_ <-]. simpl. lia.
      * apply bool_decide_eq_false, not_true_is_false in Tr.
        rewrite tv_useThrottle_dropped by assumption. simpl.
        split; [left; reflexivity|]. split; [reflexivity|].
        split; [exact Ha|]. split; [exact Hs|].
        intros id tm El. rewrite lookup_empty in El. discriminate.
  - destruct (fire id now st) as [st'|] eqn:Hf; simpl; [|repeat split; assumption].
    destruct (tvx_fire_cases id now st st' W Hf) as (d & v & El & Hle & ->). simpl.
    split; [left; reflexivity|]. split; [exact Hfc|].
    rewrite map_app. simpl.
    split; [rewrite last_last; reflexivity|].
    split.
    + apply spaced_snoc; [exact Hs|]. rewrite <- Ha.
      specialize (Hd id (Host.Timer d v)). rewrite El, lookup_singleton_eq in Hd.
      specialize (Hd eq_refl). simpl in Hd. lia.
    + intros i tm E'. rewrite lookup_empty in E'. discriminate.
Qed.

Lemma tvx_paced_exec o es st : paced o st -> paced o (exec o es st).
Proof.
  revert st. induction es as [|e es IH]; intros st Hp; [exact Hp|].
  unfold exec. simpl. apply IH. apply tvx_paced_step. exact Hp.
Qed.
End ThrottleValueHistories.

(** ** Rate limits and invariants of the throttle gates *)

Section ThrottleExtras.
Import ThrottleOptions.

(** X1. Throttle-Callback: as long as [flush] is not used, any two successive
    calls of the wrapped function are at least [delay] apart, whatever the
    renders, the calls of the throttled function, the calls of [cancel] and
    the times at which the host fires the timers. *)
Theorem throttle_callback_calls_are_delay_apart :
  forall (F A : Type) (o : UseThrottleOptions)
         (es : list (ThrottleCallbackTrace.event F A)) (f : F),
    forallb (fun e => negb (ThrottleCallbackTrace.is_flush e)) es = true ->
    Spacing.spaced (delay_of o)
      (ThrottleCallbackTrace.call_times
         (ThrottleCallbackTrace.exec o es (ThrottleCallback.mount f))).
Proof.
  intros F A o es f Hes.
  destruct (tcx_paced_exec o es (ThrottleCallback.mount f) Hes (tcx_paced_mount o f))
    as (_ & _ & Hs & _).
  exact Hs.
Qed.

(** A history with calls, a late timer and a [cancel]. *)
Lemma throttle_callback_calls_are_delay_apart_witness :
  let es :=
    [ThrottleCallbackTrace.Invoke 1000 "A"%string;
     ThrottleCallbackTrace.Invoke 1030 "B"%string;
     ThrottleCallbackTrace.Timeout 1 1120;
     ThrottleCallbackTrace.Invoke 1130 "C"%string;
     ThrottleCallbackTrace.Cancel;
     ThrottleCallbackTrace.Invoke 1230 "D"%string] in
  forallb (fun e => negb (ThrottleCallbackTrace.is_flush e)) es = true /\
  ThrottleCallbackTrace.call_times
    (ThrottleCallbackTrace.exec Scenario.config es (ThrottleCallback.mount tt))
  = [1000; 1120; 1230] /\
  Spacing.spaced 100
    (ThrottleCallbackTrace.call_times
       (ThrottleCallbackTrace.exec Scenario.config es (ThrottleCallback.mount tt))).
Proof.
  intros es.
  assert (forallb (fun e => negb (ThrottleCallbackTrace.is_flush e)) es = true) as H
    by reflexivity.
  split; [exact H|]. split; [vm_compute; reflexivity|].
  exact (throttle_callback_calls_are_delay_apart unit string Scenario.config es tt H).
Defined.

(** X2. Throttle-Callback, every reachable state: the refs, the flag and the
    timer table agree ([isThrottled] is set exactly when one timer is live,
    and exactly when arguments are pending; no second timer ever lives), and
    [lastExecutedRef] is the time of the latest call of the wrapped
    function, 0 before the first. *)
Theorem throttle_callback_state_is_coherent :
  forall (F A : Type) (st : ThrottleCallback.state F A),
    ThrottleCallback.reachable st ->
    (ThrottleCallback.isThrottled st = true <->
     Host.live (ThrottleCallback.timers st) <> ∅) /\
    (ThrottleCallback.isThrottled st = true <->
     is_Some (ThrottleCallback.pendingArgsRef st)) /\
    (forall i j ti tj,
        Host.live (ThrottleCallback.timers st) !! i = Some ti ->
        Host.live (ThrottleCallback.timers st) !! j = Some tj ->
        i = j /\ ThrottleCallback.timeoutRef st = Some i) /\
    ThrottleCallback.lastExecutedRef st
    = List.last (ThrottleCallbackTrace.call_times st) 0.
Proof.
  intros F A st R. pose proof (tc_reachable_coherent st R) as Hc.
  split; [apply tc_pending_iff; exact Hc|].
  split; [|split; [|apply tcx_anchor_is_latest_call; exact R]].
  - unfold ThrottleCallback.coherent in Hc.
    destruct (ThrottleCallback.timeoutRef st).
    + destruct Hc as (_ & Hp & ->). tauto.
    + destruct Hc as (_ & -> & ->). split; [discriminate|].
      intros [x Hx]. discriminate.
  - intros i j ti tj Hi Hj. unfold ThrottleCallback.coherent in Hc.
    destruct (ThrottleCallback.timeoutRef st) as [k|].
    + destruct Hc as ([tm E] & _). rewrite E in Hi, Hj.
      apply lookup_singleton_Some in Hi as [<- _].
      apply lookup_singleton_Some in Hj as [<- _]. auto.
    + destruct Hc as (E & _). rewrite E, lookup_empty in Hi. discriminate.
Qed.

(** A reachable state: B is pending. *)
Lemma throttle_callback_state_is_coherent_witness :
  let st :=
    ThrottleCallback.throttledCallback Scenario.config 1030 "B"%string
      (ThrottleCallback.throttledCallback Scenario.config 1000 "A"%string
         (ThrottleCallback.mount tt)) in
  ThrottleCallback.reachable st /\
  ThrottleCallback.lastExecutedRef st
  = List.last (ThrottleCallbackTrace.call_times st) 0.
Proof.
  intros st.
  assert (ThrottleCallback.reachable st) as R
    by (do 2 apply ThrottleCallback.reach_call; apply ThrottleCallback.reach_mount).
  split; [exact R|].
  exact (proj2 (proj2 (proj2 (throttle_callback_state_is_coherent unit string st R)))).
Defined.

(** X3. Throttle-Value: any two successive calls of [setThrottledValue] are at
    least [delay] apart, whatever the renders and the times at which the
    host fires the timers. *)
Theorem throttle_value_emissions_are_delay_apart :
  forall (T : Type) (dec : EqDecision T) (v0 : T) (o : UseThrottleOptions) (t0 : Z)
         (es : list (ThrottleValueTrace.event T)),
    Spacing.spaced (delay_of o)
      (ThrottleValueTrace.emission_times
         (ThrottleValueTrace.exec o es (ThrottleValue.mount v0 o t0))).
Proof.
  intros T dec v0 o t0 es.
  destruct (tvx_paced_exec o es (ThrottleValue.mount v0 o t0) (tvx_paced_mount o v0 t0))
    as (_ & _ & _ & Hs & _).
  exact Hs.
Qed.
End ThrottleExtras.

(** ** More on the throttle gates *)

Section ThrottleEdges.
Import ThrottleOptions.

Lemma tcx_leading_only_exec {F A : Type} (o : UseThrottleOptions)
    (es : list (ThrottleCallbackTrace.event F A)) (st : ThrottleCallback.state F A) :
  trailing_of o = false ->
  ThrottleCallback.timeoutRef st = None ->
  ThrottleCallback.pendingArgsRef st = None ->
  ThrottleCallback.isThrottled st = false ->
  Host.live (ThrottleCallback.timers st) = ∅ ->
  let st' := ThrottleCallbackTrace.exec o es st in
  ThrottleCallback.timeoutRef st' = None /\
  ThrottleCallback.pendingArgsRef st' = None /\
  ThrottleCallback.isThrottled st' = false /\
  Host.live (ThrottleCallback.timers st') = ∅ /\
  forall c, List.In c (ThrottleCallback.calls st') ->
            List.In c (ThrottleCallback.calls st) \/
            List.In (ThrottleCallbackTrace.Invoke (ThrottleCallback.at_ c)
                       (ThrottleCallback.args c)) es.
Proof.
  intros Tr. revert st. induction es as [|e es IH]; intros st Hr Hp Ht Hl.
  - simpl. auto 10.
  - assert (let s1 := ThrottleCallbackTrace.step o st e in
            ThrottleCallback.timeoutRef s1 = None /\
            ThrottleCallback.pendingArgsRef s1 = None /\
            ThrottleCallback.isThrottled s1 = false /\
            Host.live (ThrottleCallback.timers s1) = ∅ /\
            forall c, List.In c (ThrottleCallback.calls s1) ->
                      List.In c (ThrottleCallback.calls st) \/
                      ThrottleCallbackTrace.Invoke (ThrottleCallback.at_ c)
                        (ThrottleCallback.args c) = e) as (H1 & H2 & H3 & H4 & H5).
    { destruct e as [f | now a | | now | id now]; simpl.
      - auto 10.
      - unfold ThrottleCallback.throttledCallback, ThrottleCallback.clear_ref.
        rewrite Hr, Tr.
        destruct (ThrottleCallback.leading_edge o now st); simpl; [|auto 10].
        do 4 (split; [auto|]). intros c Hc. apply in_app_or in Hc as [Hc | [<- | []]];
          [left; exact Hc | right; reflexivity].
      - unfold ThrottleCallback.clear_ref. rewrite Hr. auto 10.
      - unfold ThrottleCallback.flush. rewrite Hr. auto 10.
      - unfold ThrottleCallback.fire. rewrite take_none by exact Hl. simpl. auto 10. }
    destruct (IH _ H1 H2 H3 H4) as (G1 & G2 & G3 & G4 & G5).
    simpl. do 4 (split; [assumption|]).
    intros c Hc. destruct (G5 c Hc) as [Hin | Hin].
    + destruct (H5 c Hin) as [Hin' | <-]; [left; exact Hin' | right; left; reflexivity].
    + right. right. exact Hin.
Qed.

(** X4. Throttle-Callback with [trailing = false]: no timer is ever armed,
    [isThrottled] is never set, and every call of the wrapped function is
    made within a call of the throttled function, at its time and with its
    arguments; a call that comes inside the window leaves no trace. *)
Theorem throttle_callback_leading_only_never_defers :
  forall (F A : Type) (o : UseThrottleOptions)
         (es : list (ThrottleCallbackTrace.event F A)) (f : F),
    trailing_of o = false ->
    let st := ThrottleCallbackTrace.exec o es (ThrottleCallback.mount f) in
    ThrottleCallback.isThrottled st = false /\
    Host.live (ThrottleCallback.timers st) = ∅ /\
    (forall c, List.In c (ThrottleCallback.calls st) ->
               List.In (ThrottleCallbackTrace.Invoke (ThrottleCallback.at_ c)
                          (ThrottleCallback.args c)) es) /\
    (forall now a,
        ThrottleCallback.leading_edge o now st = false ->
        ThrottleCallback.throttledCallback o now a st = st).
Proof.
  intros F A o es f Tr st.
  destruct (tcx_leading_only_exec o es (ThrottleCallback.mount f) Tr
              eq_refl eq_refl eq_refl eq_refl) as (_ & _ & H3 & H4 & H5).
  split; [exact H3|]. split; [exact H4|]. split.
  - intros c Hc. destruct (H5 c Hc) as [[] | Hin]. exact Hin.
  - intros now a L. apply tc_throttledCallback_dropped; assumption.
Qed.

(** [delay = 100], [trailing = false]: B, 30 ms after A, is dropped. *)
Lemma throttle_callback_leading_only_witness :
  let o := Options (Some 100) None (Some false) in
  let es := [ThrottleCallbackTrace.Invoke 1000 "A"%string;
             ThrottleCallbackTrace.Invoke 1030 "B"%string] in
  trailing_of o = false /\
  ThrottleCallback.calls (ThrottleCallbackTrace.exec o es (ThrottleCallback.mount tt))
  = [ThrottleCallback.Call 1000 tt "A"%string] /\
  ThrottleCallback.isThrottled
    (ThrottleCallbackTrace.exec o es (ThrottleCallback.mount tt)) = false.
Proof.
  intros o es.
  assert (trailing_of o = false) as Tr by reflexivity.
  split; [exact Tr|]. split; [vm_compute; reflexivity|].
  exact (proj1 (throttle_callback_leading_only_never_defers unit string o es tt Tr)).
Defined.

(** X5. Throttle-Callback with [leading = false] and [trailing = false]: the
    wrapped function is never called, whatever is done with the gate. *)
Theorem throttle_callback_without_edges_never_calls :
  forall (F A : Type) (o : UseThrottleOptions)
         (es : list (ThrottleCallbackTrace.event F A)) (f : F),
    leading_of o = false ->
    trailing_of o = false ->
    ThrottleCallback.calls (ThrottleCallbackTrace.exec o es (ThrottleCallback.mount f))
    = [].
Proof.
  intros F A o es f L Tr.
  assert (forall st : ThrottleCallback.state F A,
             ThrottleCallback.timeoutRef st = None ->
             ThrottleCallback.timers st = Host.boot ->
             ThrottleCallback.calls st = [] ->
             ThrottleCallback.calls (ThrottleCallbackTrace.exec o es st) = []) as H.
  { induction es as [|e es IH]; intros st Hr Ht Hc; [exact Hc|].
    simpl. apply IH.
    - destruct e as [g | now a | | now | id now]; simpl; try assumption.
      + unfold ThrottleCallback.throttledCallback, ThrottleCallback.leading_edge.
        rewrite L, Tr. exact Hr.
      + reflexivity.
      + unfold ThrottleCallback.flush. rewrite Hr. exact Hr.
      + unfold ThrottleCallback.fire. rewrite Ht. exact Hr.
    - destruct e as [g | now a | | now | id now]; simpl; try assumption.
      + unfold ThrottleCallback.throttledCallback, ThrottleCallback.leading_edge.
        rewrite L, Tr. exact Ht.
      + unfold ThrottleCallback.clear_ref. rewrite Hr. exact Ht.
      + unfold ThrottleCallback.flush. rewrite Hr. exact Ht.
      + unfold ThrottleCallback.fire. rewrite Ht. exact Ht.
    - destruct e as [g | now a | | now | id now]; simpl; try assumption.
      + unfold ThrottleCallback.throttledCallback, ThrottleCallback.leading_edge.
        rewrite L, Tr. exact Hc.
      + unfold ThrottleCallback.flush. rewrite Hr. exact Hc.
      + unfold ThrottleCallback.fire. rewrite Ht. exact Hc. }
  apply H; reflexivity.
Qed.

(** Both edges off: three calls, [flush] and a timer tick call nothing. *)
Lemma throttle_callback_without_edges_witness :
  let o := Options (Some 100) (Some false) (Some false) in
  let es := [ThrottleCallbackTrace.Invoke 1000 "A"%string;
             ThrottleCallbackTrace.Invoke 5000 "B"%string;
             ThrottleCallbackTrace.Flush 5001;
             ThrottleCallbackTrace.Timeout 1 9000] in
  (leading_of o = false /\ trailing_of o = false) /\
  ThrottleCallback.calls (ThrottleCallbackTrace.exec o es (ThrottleCallback.mount tt))
  = [].
Proof.
  intros o es.
  assert (leading_of o = false) as L by reflexivity.
  assert (trailing_of o = false) as Tr by reflexivity.
  split; [split; assumption|].
  exact (throttle_callback_without_edges_never_calls unit string o es tt L Tr).
Defined.

(** X6. Throttle-Callback: when a call takes the leading edge while arguments
    are still pending (their timer is late, or was armed under other
    options), the pending arguments are discarded: the wrapped function is
    called with the new arguments only, and neither a timer nor [flush] will
    ever deliver the old ones. *)
Theorem throttle_callback_leading_call_discards_pending :
  forall (F A : Type) (st : ThrottleCallback.state F A) o now a a0,
    ThrottleCallback.coherent st ->
    ThrottleCallback.pendingArgsRef st = Some a0 ->
    ThrottleCallback.leading_edge o now st = true ->
    let st' := ThrottleCallback.throttledCallback o now a st in
    ThrottleCallback.calls st'
    = ThrottleCallback.calls st
        ++ [ThrottleCallback.Call now (ThrottleCallback.callbackRef st) a] /\
    ThrottleCallback.pendingArgsRef st' = None /\
    ThrottleCallback.isThrottled st' = false /\
    (forall i t, ThrottleCallback.fire i t st' = None) /\
    (forall t, ThrottleCallback.flush t st' = st').
Proof.
  intros F A st o now a a0 Hc _ L st'. subst st'.
  rewrite tc_throttledCallback_leading by assumption.
  split; [reflexivity|]. split; [reflexivity|]. split; [reflexivity|]. split.
  - intros i t. apply tc_fire_idle. reflexivity.
  - intros t. reflexivity.
Qed.

(** B is pending, due at 1100; the host is late and C arrives at 1150. *)
Lemma throttle_callback_leading_call_discards_witness :
  let st :=
    ThrottleCallback.throttledCallback Scenario.config 1030 "B"%string
      (ThrottleCallback.throttledCallback Scenario.config 1000 "A"%string
         (ThrottleCallback.mount tt)) in
  (ThrottleCallback.pendingArgsRef st = Some "B"%string /\
   ThrottleCallback.leading_edge Scenario.config 1150 st = true) /\
  ThrottleCallback.calls (ThrottleCallback.throttledCallback Scenario.config 1150 "C"%string st)
  = [ThrottleCallback.Call 1000 tt "A"%string;
     ThrottleCallback.Call 1150 tt "C"%string].
Proof.
  intros st.
  assert (ThrottleCallback.coherent st) as Hc
    by (do 2 apply tc_coherent_throttledCallback; apply tc_coherent_mount).
  assert (ThrottleCallback.pendingArgsRef st = Some "B"%string) as Hp by reflexivity.
  assert (ThrottleCallback.leading_edge Scenario.config 1150 st = true) as L
    by reflexivity.
  split; [split; assumption|].
  exact (proj1 (throttle_callback_leading_call_discards_pending unit string st
                  Scenario.config 1150 "C"%string "B"%string Hc Hp L)).
Defined.

(** X7. Throttle-Callback: unmounting clears the timer, which can no longer
    fire, but leaves the refs as they are: pending arguments stay pending,
    and a [flush] made after the unmount still calls the wrapped function
    with them. *)
Theorem throttle_callback_unmount_keeps_pending_arguments :
  forall (F A : Type) (st : ThrottleCallback.state F A) a,
    ThrottleCallback.coherent st ->
    ThrottleCallback.pendingArgsRef st = Some a ->
    let st' := ThrottleCallback.unmount st in
    (forall i t, ThrottleCallback.fire i t st' = None) /\
    ThrottleCallback.calls st' = ThrottleCallback.calls st /\
    forall t,
      ThrottleCallback.calls (ThrottleCallback.flush t st')
      = ThrottleCallback.calls st
          ++ [ThrottleCallback.Call t (ThrottleCallback.callbackRef st) a].
Proof.
  intros F A st a Hc Hp st'.
  split; [apply tc_unmount_silent; exact Hc|]. split; [reflexivity|].
  intros t. subst st'. unfold ThrottleCallback.flush, ThrottleCallback.unmount.
  cbn [ThrottleCallback.timeoutRef ThrottleCallback.pendingArgsRef].
  unfold ThrottleCallback.coherent in Hc. rewrite Hp in *.
  destruct (ThrottleCallback.timeoutRef st) as [id|]; [reflexivity|].
  destruct Hc as (_ & Hn & _). discriminate.
Qed.

(** B is pending when the component unmounts. *)
Lemma throttle_callback_unmount_witness :
  let st :=
    ThrottleCallback.throttledCallback Scenario.config 1030 "B"%string
      (ThrottleCallback.throttledCallback Scenario.config 1000 "A"%string
         (ThrottleCallback.mount tt)) in
  ThrottleCallback.pendingArgsRef st = Some "B"%string /\
  ThrottleCallback.calls (ThrottleCallback.flush 1050 (ThrottleCallback.unmount st))
  = ThrottleCallback.calls st ++ [ThrottleCallback.Call 1050 tt "B"%string].
Proof.
  intros st.
  assert (ThrottleCallback.coherent st) as Hc
    by (do 2 apply tc_coherent_throttledCallback; apply tc_coherent_mount).
  assert (ThrottleCallback.pendingArgsRef st = Some "B"%string) as Hp by reflexivity.
  split; [exact Hp|].
  exact (proj2 (proj2 (throttle_callback_unmount_keeps_pending_arguments unit string st
                         "B"%string Hc Hp)) 1050).
Defined.



(** X9. Throttle-Value with [trailing = false]: a new value rendered inside the
    window is dropped for good.  Nothing is emitted and no timer is armed;
    since the effect has recorded the value in its dependencies, rendering
    it again does nothing, even after the window has run out: the output
    stays stale until the input changes once more. *)
Theorem throttle_value_leading_only_drops_for_good :
  forall (T : Type) (dec : EqDecision T) (st : ThrottleValue.state T) o now v,
    ThrottleValue.wf st ->
    ThrottleValue.deps st <> Some (v, delay_of o, leading_of o, trailing_of o) ->
    ThrottleValue.leading_edge o now st = false ->
    trailing_of o = false ->
    let st' := ThrottleValue.useThrottle v o now st in
    ThrottleValue.throttledValue st' = ThrottleValue.throttledValue st /\
    ThrottleValue.emitted st' = ThrottleValue.emitted st /\
    (forall i t, ThrottleValue.fire i t st' = None) /\
    (forall t, ThrottleValue.useThrottle v o t st' = st').
Proof.
  intros T dec st o now v W D L Tr st'. subst st'.
  rewrite tv_useThrottle_dropped by assumption.
  split; [reflexivity|]. split; [reflexivity|]. split.
  - intros i t. unfold ThrottleValue.fire. rewrite take_none by reflexivity.
    reflexivity.
  - intros t. apply tv_useThrottle_same. reflexivity.
Qed.

(** [delay = 100], [trailing = false]: "B", 30 ms after the first render,
    is not shown at 1030 and not at 5000 either. *)
Lemma throttle_value_leading_only_witness :
  let o := Options (Some 100) None (Some false) in
  let st := ThrottleValue.mount "A"%string o 1000 in
  ThrottleValue.leading_edge o 1030 st = false /\
  ThrottleValue.throttledValue
    (ThrottleValue.useThrottle "B"%string o 5000
       (ThrottleValue.useThrottle "B"%string o 1030 st))
  = "A"%string.
Proof.
  intros o st.
  assert (ThrottleValue.wf st) as W by apply tv_wf_mount.
  assert (ThrottleValue.deps st <>
          Some ("B"%string, delay_of o, leading_of o, trailing_of o)) as D
    by (vm_compute; discriminate).
  assert (ThrottleValue.leading_edge o 1030 st = false) as L by reflexivity.
  assert (trailing_of o = false) as Tr by reflexivity.
  destruct (throttle_value_leading_only_drops_for_good string _ st o 1030 "B"%string
              W D L Tr) as (P & _ & _ & Q).
  split; [exact L|]. rewrite (Q 5000). rewrite P. reflexivity.
Defined.
End ThrottleEdges.

(** ** The order in which an ideal host fires timers *)

Section HostOrder.
Context {C : Type}.
Implicit Types (h : Host.host C) (x y z : nat * Host.timer C).







End HostOrder.

(** ** More on [useDebounce] *)

Section DebounceTimers.
Import Debounce.
Context {T : Type} `{EqDecision T}.
Implicit Types (st : state T) (o : UseDebounceOptions) (v : T).



Lemma dbx_fire_not_due t st :
  (forall id tm, Host.live (timers st) !! id = Some tm -> t < Host.due tm) ->
  forall i, fire i t st = None.
Proof.
  intros Hd i. unfold fire, Host.take.
  destruct (Host.live (timers st) !! i) as [tm|] eqn:El; [|reflexivity].
  specialize (Hd i tm El). destruct (Z.leb_spec (Host.due tm) t); [lia | reflexivity].
Qed.



End DebounceTimers.


(** ** What a debounce gate emits, and when *)

Section DebounceExtras.
Import Debounce.

(** The state a render with changed dependencies leaves behind. *)
Lemma dbx_update_shape {T : Type} `{EqDecision T} (v : T) o now (st : state T) :
  settled st -> tidy st ->
  deps1 st <> Some (v, delay_of o, leading_of o, maxWait o, false) ->
  let st' := useDebounce v o now st in
  let n := Host.next_handle (timers st) in
  settled st' /\ tidy st' /\
  emitted st' = emitted st /\ debouncedValue st' = debouncedValue st /\
  deps1 st' = Some (v, delay_of o, leading_of o, maxWait o, false) /\
  Host.live (timers st') =
    if truthy (maxWait o) then
      <[S n := Host.Timer (now + Z.max 0 (default 0 (maxWait o))) (OnMaxWait v)]>
        {[ n := Host.Timer (now + Z.max 0 (delay_of o)) (OnTimer v) ]}
    else {[ n := Host.Timer (now + Z.max 0 (delay_of o)) (OnTimer v) ]}.
Proof.
  intros Hs Ht D st' n.
  destruct (db_stable_useDebounce v o now st Hs Ht) as [Hs' Ht'].
  destruct (db_update_rearms v o now st Ht (proj1 Hs) D)
    as (Ev & _ & Ee & _ & E1 & _ & _ & Et).
  do 5 (split; [assumption|]). subst st'. rewrite Et.
  destruct (truthy (maxWait o)); reflexivity.
Qed.



(** X10. Debounce: once mounted, a render never changes the output by itself and
    never emits, whatever its value and options, [leading = true] included;
    every later emission is made by a timer. *)
Theorem debounce_render_never_emits_once_mounted :
  forall (T : Type) (dec : EqDecision T) (st : state T) v o now,
    reachable st ->
    emitted (useDebounce v o now st) = emitted st /\
    debouncedValue (useDebounce v o now st) = debouncedValue st /\
    isFirstCall (useDebounce v o now st) = false.
Proof.
  intros T dec st v o now R. destruct (db_reachable_stable st R) as [Hs Ht].
  destruct (decide (deps1 st = Some (v, delay_of o, leading_of o, maxWait o, false)))
    as [D|D].
  - rewrite db_same_deps by assumption. cbn. repeat split. exact (proj1 Hs).
  - destruct (db_update_rearms v o now st Ht (proj1 Hs) D) as (Ev & Hf & Ee & _).
    auto.
Qed.

(** [leading = true]: "b", rendered long after the mount, is not emitted. *)
Lemma debounce_render_never_emits_witness :
  let o := Options (Some 100) (Some true) None in
  let st := mount "a"%string o 1000 in
  reachable st /\
  debouncedValue (useDebounce "b"%string o 5000 st) = "a"%string.
Proof.
  intros o st.
  assert (reachable st) as R by apply reach_mount.
  split; [exact R|].
  destruct (debounce_render_never_emits_once_mounted string _ st "b"%string o 5000 R)
    as (_ & P & _).
  rewrite P. reflexivity.
Defined.

(** X11. Debounce: a value brought by a render is never emitted early.  Before
    [delay] has passed (before the lesser of [delay] and [maxWait], when
    [maxWait] is set), negative waits counting as zero, no timer can fire. *)
Theorem debounce_value_is_never_emitted_early :
  forall (T : Type) (dec : EqDecision T) (st : state T) v o now,
    reachable st ->
    deps1 st <> Some (v, delay_of o, leading_of o, maxWait o, false) ->
    let wait :=
      if truthy (maxWait o)
      then Z.min (Z.max 0 (delay_of o)) (Z.max 0 (default 0 (maxWait o)))
      else Z.max 0 (delay_of o) in
    forall i t, t < now + wait -> fire i t (useDebounce v o now st) = None.
Proof.
  intros T dec st v o now R D wait i t Ht.
  destruct (db_reachable_stable st R) as [Hs Hti].
  destruct (dbx_update_shape v o now st Hs Hti D) as (_ & _ & _ & _ & _ & El).
  apply dbx_fire_not_due. intros id tm Hl. rewrite El in Hl. subst wait.
  destruct (truthy (maxWait o)).
  - apply lookup_insert_Some in Hl as [[_ <-] | [_ Hl]]; [simpl; lia|].
    apply lookup_singleton_Some in Hl as [_ <-]. simpl. lia.
  - apply lookup_singleton_Some in Hl as [_ <-]. simpl. lia.
Qed.

(** [delay = 100], [maxWait = 250]: "b" rendered at 2000 cannot be emitted
    at 2099. *)
Lemma debounce_value_is_never_emitted_early_witness :
  let st := mount "a"%string Scenario.debounce_config 1000 in
  reachable st /\
  forall i, fire i 2099 (useDebounce "b"%string Scenario.debounce_config 2000 st) = None.
Proof.
  intros st.
  assert (reachable st) as R by apply reach_mount.
  assert (deps1 st <>
          Some ("b"%string, delay_of Scenario.debounce_config,
                leading_of Scenario.debounce_config,
                maxWait Scenario.debounce_config, false)) as D
    by (vm_compute; discriminate).
  split; [exact R|]. intros i.
  apply (debounce_value_is_never_emitted_early string _ st "b"%string
           Scenario.debounce_config 2000 R D).
  vm_compute. reflexivity.
Defined.





(** X14. Debounce: [maxWait] does not bound the wait for a value that keeps
    changing.  In a burst of renders, each bringing a new value less than
    [gap] after the one before, with [gap] at most [delay] and at most
    [maxWait], nothing is emitted while the burst lasts, however long that
    is: every render clears the max-wait timer and arms it anew. *)
Theorem debounce_burst_outlasts_maxwait :
  forall (T : Type) (dec : EqDecision T) o gap (evs : list (Z * T)) t (v : T)
         (st0 : state T),
    reachable st0 ->
    deps1 st0 <> Some (v, delay_of o, leading_of o, maxWait o, false) ->
    gap <= delay_of o ->
    (truthy (maxWait o) = true -> gap <= default 0 (maxWait o)) ->
    burst_after gap t v evs ->
    emitted (run o evs (useDebounce v o t st0)) = emitted st0 /\
    debouncedValue (run o evs (useDebounce v o t st0)) = debouncedValue st0.
Proof.
  intros T dec o gap evs t v st0 R D Hg Hm Hb.
  destruct (db_reachable_stable st0 R) as [Hs0 Ht0].
  destruct (dbx_update_shape v o t st0 Hs0 Ht0 D) as (Hs & Ht & Em & Dv & E1 & El).
  rewrite <- Em, <- Dv.
  apply (db_burst_emits_nothing o gap evs Hg Hm t v _ Hs Ht E1); [|exact Hb].
  intros id tm Hl. rewrite El in Hl.
  destruct (truthy (maxWait o)) eqn:Tm.
  - apply lookup_insert_Some in Hl as [[_ <-] | [_ Hl]].
    + cbn [Host.due]. specialize (Hm eq_refl). lia.
    + apply lookup_singleton_Some in Hl as [_ <-]. cbn [Host.due]. lia.
  - apply lookup_singleton_Some in Hl as [_ <-]. cbn [Host.due]. lia.
Qed.

(** The burst of the scenario: [maxWait = 250] does not force any emission
    while the values keep changing every 50 ms, from 1050 to 1400. *)
Lemma debounce_burst_outlasts_maxwait_witness :
  let o := Scenario.debounce_config in
  let st0 := mount "a"%string o 1000 in
  (100 <= delay_of o /\ burst_after 100 1050 "b"%string (tl Scenario.changes)) /\
  emitted (run o (tl Scenario.changes) (useDebounce "b"%string o 1050 st0)) = emitted st0.
Proof.
  intros o st0.
  assert (reachable st0) as R by apply reach_mount.
  assert (deps1 st0 <> Some ("b"%string, delay_of o, leading_of o, maxWait o, false)) as D0
    by (vm_compute; discriminate).
  assert (100 <= delay_of o) as Hg by (vm_compute; discriminate).
  assert (truthy (maxWait o) = true -> 100 <= default 0 (maxWait o)) as Hm
    by (intros _; vm_compute; discriminate).
  assert (burst_after 100 1050 "b"%string (tl Scenario.changes)) as Hb.
  { simpl. repeat split; try lia; discriminate. }
  split; [split; assumption|].
  exact (proj1 (debounce_burst_outlasts_maxwait string _ o 100 (tl Scenario.changes)
                  1050 "b"%string st0 R D0 Hg Hm Hb)).
Defined.

(** X15. Debounce: a render with the value and the options of the render before
    is the identity: the effects do not run, the timers are not re-armed and
    the emission that is pending keeps its due time. *)
Theorem debounce_same_render_is_identity :
  forall (T : Type) (dec : EqDecision T) (st : state T) now,
    reachable st ->
    useDebounce (fst (props st)) (snd (props st)) now st = st.
Proof.
  intros T dec st now R. destruct (db_reachable_stable st R) as [Hs _].
  rewrite db_same_deps; [|exact Hs | exact (proj1 (proj2 Hs))].
  destruct st as [dv fc [pv po] d1 c1 d2 h em]. reflexivity.
Qed.

(** "b" is pending since 2000; rendering "b" again at 2050 changes nothing. *)
Lemma debounce_same_render_witness :
  let o := Scenario.debounce_config in
  let st := useDebounce "b"%string o 2000 (mount "a"%string o 1000) in
  reachable st /\ useDebounce "b"%string o 2050 st = st.
Proof.
  intros o st.
  assert (reachable st) as R by (apply reach_render, reach_mount).
  split; [exact R|].
  exact (debounce_same_render_is_identity string _ st 2050 R).
Defined.
End DebounceExtras.

(** ** The leading option of the debounce gate *)

Section DebounceLeading.
Import Debounce.



End DebounceLeading.

(** ** Unmounting *)

(** X16. Throttle-Value and Debounce: after the unmount of a gate no timer is
    left that could fire, so nothing is emitted any more. *)
Theorem unmount_leaves_no_timer :
  (forall (T : Type) (dec : EqDecision T) (st : ThrottleValue.state T),
      ThrottleValue.reachable st ->
      forall i t, ThrottleValue.fire i t (ThrottleValue.unmount st) = None) /\
  (forall (T : Type) (dec : EqDecision T) (st : Debounce.state T),
      Debounce.reachable st ->
      forall i t, Debounce.fire i t (Debounce.unmount st) = None).
Proof.
  split.
  - intros T dec st R. apply tv_unmount_silent, tv_reachable_wf. exact R.
  - intros T dec st R. apply db_unmount_silent.
    exact (proj2 (db_reachable_stable st R)).
Qed.

(** Both gates unmounted while "b" is pending. *)
Lemma unmount_leaves_no_timer_witness :
  let tv :=
    ThrottleValue.useThrottle "b"%string Scenario.config 1030
      (ThrottleValue.mount "a"%string Scenario.config 1000) in
  let db :=
    Debounce.useDebounce "b"%string Scenario.debounce_config 1030
      (Debounce.mount "a"%string Scenario.debounce_config 1000) in
  (ThrottleValue.reachable tv /\ Debounce.reachable db) /\
  ThrottleValue.fire 1 5000 (ThrottleValue.unmount tv) = None /\
  Debounce.fire 4 5000 (Debounce.unmount db) = None.
Proof.
  intros tv db.
  assert (ThrottleValue.reachable tv) as R1
    by (apply ThrottleValue.reach_render, ThrottleValue.reach_mount).
  assert (Debounce.reachable db) as R2
    by (apply Debounce.reach_render, Debounce.reach_mount).
  destruct unmount_leaves_no_timer as [P Q].
  split; [split; assumption|]. split.
  - exact (P string _ tv R1 1%nat 5000).
  - exact (Q string _ db R2 4%nat 5000).
Defined.

(** * The other hooks *)

(** ** [useToggle] *)

(** X17. [useToggle]: after any operations, an assignment of [b] and [n]
    toggles, the value is [b] when [n] is even and its negation when [n] is
    odd; with no assignment, the same holds of the initial value. *)
Theorem toggle_value_is_assignment_and_parity :
  forall (acts : list Toggle.action) (b : bool) (n : nat) (initialValue : option bool),
    Toggle.run (acts ++ [Toggle.setValue b] ++ repeat Toggle.toggle n)
      (Toggle.useToggle initialValue)
    = (if Nat.even n then b else negb b) /\
    Toggle.run (acts ++ [Toggle.setTrue] ++ repeat Toggle.toggle n)
      (Toggle.useToggle initialValue)
    = Nat.even n /\
    Toggle.run (acts ++ [Toggle.setFalse] ++ repeat Toggle.toggle n)
      (Toggle.useToggle initialValue)
    = Nat.odd n /\
    Toggle.run (repeat Toggle.toggle n) (Toggle.useToggle initialValue)
    = (if Nat.even n then Toggle.useToggle initialValue
       else negb (Toggle.useToggle initialValue)).
Proof.
  assert (forall n v, Toggle.run (repeat Toggle.toggle n) v
                      = if Nat.even n then v else negb v) as Par.
  { intros n. induction n as [n IH] using (well_founded_induction lt_wf). intros v.
    destruct n as [|[|n]]; [reflexivity | reflexivity |].
    change (Toggle.run (repeat Toggle.toggle (S (S n))) v)
      with (Toggle.run (repeat Toggle.toggle n) (negb (negb v))).
    rewrite negb_involutive. rewrite IH by lia. reflexivity. }
  assert (forall acts a n v,
             Toggle.run (acts ++ [a] ++ repeat Toggle.toggle n) v
             = Toggle.run (repeat Toggle.toggle n)
                 (Toggle.apply (Toggle.run acts v) a)) as App.
  { intros acts a n v. unfold Toggle.run. rewrite !fold_left_app. reflexivity. }
  intros acts b n initialValue. rewrite !App, !Par. cbn [Toggle.apply].
  unfold Nat.odd. destruct (Nat.even n); repeat split; reflexivity.
Qed.

(** ** [useCountdown] *)

Section CountdownFacts.
Import Countdown CountdownShapes.
Context {K : Type}.
Implicit Types (c : UseTimerOptions K) (st : state K).

Lemma cd_effect_skip c a b st :
  depsC st = Some (a, b, targetDate c, interval_of c) ->
  interval_effect c a b st = st.
Proof. intros H. unfold interval_effect. rewrite decide_True by exact H. reflexivity. Qed.

Lemma cd_effect_arm c st :
  depsC st <> Some (true, false, targetDate c, interval_of c) ->
  interval_effect c true false st
  = let tk := if cleanupC st then clear_ref st else intervals st in
    {| timeLeft := timeLeft st; isActive := isActive st;
       isCompleted := isCompleted st;
       intervalRef := Some (next_id tk); onCompleteRef := onCompleteRef st;
       depsC := Some (true, false, targetDate c, interval_of c); cleanupC := true;
       intervals := Ticker (S (next_id tk)) ({[ next_id tk ]} ∪ running tk);
       completions := completions st |}.
Proof. intros H. unfold interval_effect. rewrite decide_False by exact H. reflexivity. Qed.

Lemma cd_effect_halt c a b st :
  negb a || b = true ->
  depsC st <> Some (a, b, targetDate c, interval_of c) ->
  interval_effect c a b st
  = let tk := if cleanupC st then clear_ref st else intervals st in
    {| timeLeft := timeLeft st; isActive := isActive st;
       isCompleted := isCompleted st;
       intervalRef := None; onCompleteRef := onCompleteRef st;
       depsC := Some (a, b, targetDate c, interval_of c); cleanupC := false;
       intervals :=
         match intervalRef st with
         | Some id => Ticker (next_id tk) (running tk ∖ {[ id ]})
         | None => tk
         end;
       completions := completions st |}.
Proof.
  intros Hab H. unfold interval_effect. rewrite decide_False by exact H.
  rewrite Hab. reflexivity.
Qed.

Lemma cd_mount_counting (options : input K) now :
  autoStart_of (config options) = true ->
  0 < getInitialTime (config options) now ->
  let st := useCountdown options now in
  counting (config options) st /\
  timeLeft st = getInitialTime (config options) now /\
  completions st = [] /\ onCompleteRef st = onComplete (config options).
Proof.
  intros Ha Hp. unfold useCountdown, commit, restart_effect.
  cbn [isActive isCompleted timeLeft intervalRef onCompleteRef depsC cleanupC intervals completions].
  rewrite Ha.
  destruct (Z.ltb_spec 0 (getInitialTime (config options) now)) as [_|]; [|lia].
  destruct (Z.eqb_spec (getInitialTime (config options) now) 0) as [|_]; [lia|].
  cbn [andb]. rewrite (cd_effect_arm _ (State _ _ _ _ _ None _ _ _)) by (cbn; discriminate).
  cbn [isActive isCompleted timeLeft intervalRef onCompleteRef depsC cleanupC intervals completions next_id running].
  rewrite cd_effect_skip by reflexivity.
  unfold counting. cbn. repeat split; try reflexivity.
  exists 1%nat. split; [reflexivity|]. set_solver.
Qed.

Lemma cd_mount_still (options : input K) now :
  getInitialTime (config options) now = 0 ->
  let st := useCountdown options now in
  still (config options) st /\
  timeLeft st = 0 /\ isCompleted st = true /\
  isActive st = autoStart_of (config options) /\
  completions st = [].
Proof.
  intros Hz. unfold useCountdown, commit, restart_effect.
  cbn [isActive isCompleted timeLeft intervalRef onCompleteRef depsC cleanupC intervals completions].
  rewrite Hz.
  change (0 <? 0) with false. change (0 =? 0) with true. rewrite andb_false_r.
  destruct (autoStart_of (config options)) eqn:Ha.
  - rewrite (cd_effect_arm _ (State _ _ _ _ _ None _ _ _)) by (cbn; discriminate).
    cbn [isActive isCompleted timeLeft intervalRef onCompleteRef depsC cleanupC intervals completions next_id running].
    rewrite cd_effect_halt by (cbn; (reflexivity || discriminate)).
    unfold still, clear_ref. cbn. repeat split; auto; set_solver.
  - rewrite (cd_effect_halt _ false false (State _ _ _ _ _ None _ _ _)) by (cbn; (reflexivity || discriminate)).
    cbn [isActive isCompleted timeLeft intervalRef onCompleteRef depsC cleanupC intervals completions next_id running].
    rewrite cd_effect_halt by (cbn; (reflexivity || discriminate)).
    unfold still, clear_ref. cbn. repeat split; auto.
Qed.

(** One run of the interval on a countdown that runs. *)
Lemma cd_beat_counting c now st :
  counting c st ->
  let st' := beat c st now in
  timeLeft st' = next_time c now st /\
  onCompleteRef st' = onCompleteRef st /\
  if next_time c now st =? 0 then
    still c st' /\ isCompleted st' = true /\ isActive st' = false /\
    completions st'
    = completions st ++ match onCompleteRef st with Some k => [k] | None => [] end
  else counting c st' /\ completions st' = completions st.
Proof.
  intros (Ha & Hc & Hd & Hcl & i & Hr & Hrun).
  destruct st as [tl act comp ref ocr dps cl [nx run] cs]. cbn in *. subst.
  unfold beat, tick. cbn [intervalRef intervals running].
  rewrite decide_True by set_solver. cbn [default from_option].
  unfold commit, on_interval. fold (next_time c now (State tl true false (Some i) ocr (Some (true, false, targetDate c, interval_of c)) true (Ticker nx {[i]}) cs)).
  set (nt := next_time c now _).
  destruct (Z.eqb_spec nt 0) as [Ez|Ez].
  - cbn [isActive isCompleted timeLeft intervalRef onCompleteRef depsC cleanupC intervals completions].
    rewrite cd_effect_halt by (cbn; (reflexivity || discriminate)).
    unfold still, clear_ref. cbn.
    split; [reflexivity|]. split; [reflexivity|].
    split; [|split; [reflexivity|split; [reflexivity|]]].
    + repeat split; auto. set_solver.
    + destruct ocr; [reflexivity | rewrite app_nil_r; reflexivity].
  - cbn [isActive isCompleted timeLeft intervalRef onCompleteRef depsC cleanupC intervals completions].
    rewrite cd_effect_skip by reflexivity.
    unfold counting. cbn. repeat split; eauto.
Qed.

Lemma cd_beat_still c now st : still c st -> beat c st now = st.
Proof. intros (_ & _ & Hr & _). unfold beat. rewrite Hr. reflexivity. Qed.

Lemma cd_beats_still c nows st : still c st -> beats c nows st = st.
Proof.
  intros Hs. induction nows as [|now nows IH]; [reflexivity|].
  unfold beats in *. simpl. rewrite cd_beat_still by exact Hs. exact IH.
Qed.

Lemma cd_beats_snoc c nows now st :
  beats c (nows ++ [now]) st = beat c (beats c nows st) now.
Proof. unfold beats. rewrite fold_left_app. reflexivity. Qed.
End CountdownFacts.

Section CountdownRuns.
Import Countdown CountdownShapes.
Context {K : Type}.
Implicit Types (c : UseTimerOptions K) (st : state K).

Lemma cd_duration_invariant (options : input K) now nows :
  targetDate (config options) = None ->
  autoStart_of (config options) = true ->
  0 < initialSeconds_of (config options) ->
  let c := config options in
  let st := beats c nows (useCountdown options now) in
  let left := initialSeconds_of c * 1000 - Z.of_nat (length nows) * interval_of c in
  onCompleteRef st = onComplete c /\
  ((0 < left /\ counting c st /\ timeLeft st = left /\ completions st = []) \/
   (left <= 0 /\ 0 < interval_of c /\ still c st /\ timeLeft st = 0 /\
    isCompleted st = true /\ isActive st = false /\
    completions st = called_once (onComplete c))).
Proof.
  intros Ht Ha Hp c. fold c in Ht, Ha, Hp. induction nows as [|t nows IH] using rev_ind.
  - cbn zeta. change (beats c [] ?s) with s. cbn [length].
    assert (G : getInitialTime c now = initialSeconds_of c * 1000)
      by (unfold getInitialTime; fold c in Ht; rewrite Ht; reflexivity).
    destruct (cd_mount_counting options now Ha) as (Hc & Htl & Hcs & Hk);
      [fold c; rewrite G; lia|].
    fold c in Hc, Htl. split; [exact Hk|]. left.
    split; [lia|]. split; [exact Hc|]. split; [lia | exact Hcs].
  - cbn zeta in *. rewrite cd_beats_snoc, length_app. cbn [length].
    destruct IH as (Hk & [(Hl & Hc & Htl & Hcs) | (Hl & Hi & Hs & Htl & Hco & Hac & Hcs)]).
    + pose proof (cd_beat_counting c t _ Hc) as (Hn & Hk' & Hif).
      assert (Hnt : next_time c t (beats c nows (useCountdown options now))
                    = Z.max 0 (initialSeconds_of c * 1000
                               - Z.of_nat (length nows + 1) * interval_of c)).
      { unfold next_time. fold c in Ht. rewrite Ht, Htl. f_equal. lia. }
      rewrite Hnt in Hn, Hif. split; [congruence|].
      destruct (Z.eqb_spec (Z.max 0 (initialSeconds_of c * 1000
                               - Z.of_nat (length nows + 1) * interval_of c)) 0) as [Ez|Ez].
      * right. destruct Hif as (Hs' & Hco' & Hac' & Hcs').
        split; [lia|]. split; [nia|]. split; [exact Hs'|]. split; [lia|].
        split; [exact Hco'|]. split; [exact Hac'|].
        rewrite Hcs', Hcs, Hk. reflexivity.
      * left. destruct Hif as (Hc' & Hcs').
        split; [lia|]. split; [exact Hc'|]. split; [lia | congruence].
    + rewrite cd_beat_still by exact Hs. split; [exact Hk|]. right.
      split; [nia|]. split; [exact Hi|]. split; [exact Hs|]. auto.
Qed.

Lemma cd_start_completed c st :
  still c st -> isCompleted st = true -> start c st = st.
Proof.
  intros (_ & Hd & _) Hc. unfold start, commit. rewrite Hc.
  destruct st as [tl act comp ref ocr dps cl tk cs]. cbn in *. subst.
  rewrite cd_effect_skip by reflexivity. reflexivity.
Qed.

End CountdownRuns.

Section CountdownExtras.
Import Countdown CountdownShapes.

(** X18. A countdown of a number of seconds loses one interval per run of
    its interval and never goes below zero; it completes when the time is
    used up, calls [onComplete] once then, and runs no interval after. *)
Theorem countdown_of_seconds_steps_down_and_completes_once
    {K : Type} (options : input K) (now : Z) (nows : list Z) :
  targetDate (config options) = None ->
  autoStart_of (config options) = true ->
  0 < initialSeconds_of (config options) ->
  let c := config options in
  let st := beats c nows (useCountdown options now) in
  let left := initialSeconds_of c * 1000 - Z.of_nat (length nows) * interval_of c in
  timeLeft st = Z.max 0 left /\
  isActive st = (0 <? left) /\
  isCompleted st = (left <=? 0) /\
  completions st = (if left <=? 0 then called_once (onComplete c) else []) /\
  (left <= 0 -> running (intervals st) = ∅).
Proof.
  intros Ht Ha Hp c st left.
  destruct (cd_duration_invariant options now nows Ht Ha Hp)
    as (_ & [(Hl & Hc & Htl & Hcs) | (Hl & Hi & Hs & Htl & Hco & Hac & Hcs)]);
    fold c in Hl; fold c st in Htl, Hcs; fold left in Hl.
  - fold c st in Hc. destruct Hc as (A & B & _).
    destruct (Z.ltb_spec 0 left); [|lia]. destruct (Z.leb_spec left 0); [lia|].
    split; [lia|]. split; [exact A|]. split; [exact B|]. split; [exact Hcs | lia].
  - fold c st in Hs, Hco, Hac. destruct Hs as (_ & _ & _ & Hr).
    destruct (Z.ltb_spec 0 left); [lia|]. destruct (Z.leb_spec left 0); [|lia].
    split; [lia|]. split; [exact Hac|]. split; [exact Hco|].
    split; [exact Hcs | intros _; exact Hr].
Qed.

Lemma countdown_of_seconds_witness :
  Countdown.timeLeft
    (beats (config (Seconds 3)) [1000; 2000; 3000; 4000] (@useCountdown string (Seconds 3) 0))
  = 0.
Proof.
  pose proof (countdown_of_seconds_steps_down_and_completes_once
                (K := string) (Seconds 3) 0 [1000; 2000; 3000; 4000]
                eq_refl eq_refl ltac:(reflexivity)) as (H & _).
  exact H.
Defined.

(** X19. A countdown to a date shows, after each run of its interval, the
    time from the clock to the date, however late the interval runs; the
    first run at or after the date completes it and calls [onComplete]
    once. *)
Theorem countdown_to_date_follows_the_clock
    {K : Type} (options : input K) (target now t : Z) (nows : list Z) :
  targetDate (config options) = Some target ->
  autoStart_of (config options) = true ->
  now < target ->
  Forall (fun t' => t' < target) nows ->
  target <= t ->
  let c := config options in
  let st := beats c nows (useCountdown options now) in
  timeLeft st = target - List.last nows now /\
  isActive st = true /\ isCompleted st = false /\ completions st = [] /\
  timeLeft (beat c st t) = 0 /\
  isActive (beat c st t) = false /\ isCompleted (beat c st t) = true /\
  completions (beat c st t) = called_once (onComplete c) /\
  running (intervals (beat c st t)) = ∅.
Proof.
  intros Ht Ha Hn Hall Hd c. fold c in Ht, Ha.
  assert (I : let st := beats c nows (useCountdown options now) in
              counting c st /\ timeLeft st = target - List.last nows now /\
              completions st = [] /\ onCompleteRef st = onComplete c).
  { induction nows as [|t' nows IH] using rev_ind.
    - cbn zeta. change (beats c [] ?s) with s.
      assert (G : getInitialTime c now = target - now)
        by (unfold getInitialTime, calculateTimeLeft; fold c in Ht; rewrite Ht; lia).
      destruct (cd_mount_counting options now Ha) as (Hc & Htl & Hcs & Hk);
        [fold c; rewrite G; lia|].
      fold c in Hc, Htl. split; [exact Hc|]. split; [cbn; lia|]. split; assumption.
    - cbn zeta in *. apply Forall_app in Hall as [Hall Ht'].
      apply Forall_inv in Ht'. destruct (IH Hall) as (Hc & Htl & Hcs & Hk).
      rewrite cd_beats_snoc, last_last.
      pose proof (cd_beat_counting c t' _ Hc) as (Hnt & Hk' & Hif).
      assert (E : next_time c t' (beats c nows (useCountdown options now)) = target - t')
        by (unfold next_time, calculateTimeLeft; fold c in Ht; rewrite Ht; lia).
      rewrite E in Hnt, Hif.
      destruct (Z.eqb_spec (target - t') 0) as [|_]; [lia|].
      destruct Hif as (Hc' & Hcs'). split; [exact Hc'|]. split; [lia|]. split; congruence. }
  cbn zeta in *. destruct I as (Hc & Htl & Hcs & Hk).
  pose proof (cd_beat_counting c t _ Hc) as (Hnt & _ & Hif).
  assert (E : next_time c t (beats c nows (useCountdown options now)) = 0)
    by (unfold next_time, calculateTimeLeft; fold c in Ht; rewrite Ht; lia).
  rewrite E in Hnt, Hif. cbn in Hif. destruct Hif as (Hs & Hco & Hac & Hcs').
  split; [exact Htl|]. split; [apply Hc|]. split; [apply Hc|]. split; [exact Hcs|].
  split; [exact Hnt|]. split; [exact Hac|]. split; [exact Hco|].
  split; [rewrite Hcs', Hcs, Hk; reflexivity | apply Hs].
Qed.

Lemma countdown_to_date_witness :
  Countdown.timeLeft
    (beats (config (Until 5000)) [1003; 2950] (@useCountdown string (Until 5000) 0))
  = 5000 - 2950.
Proof.
  pose proof (countdown_to_date_follows_the_clock (K := string) (Until 5000) 5000 0 5001 [1003; 2950]
                eq_refl eq_refl ltac:(reflexivity)
                ltac:(repeat constructor) ltac:(discriminate)) as (H & _).
  exact H.
Defined.

(** X20. A countdown that starts at zero is completed from its first
    render, but [onComplete] is never called: not at the mount, not by
    [start], not later.  [isActive] stays what [autoStart] says and no
    interval is left running. *)
Theorem countdown_from_zero_never_calls_onComplete
    {K : Type} (options : input K) (now : Z) (nows : list Z) :
  getInitialTime (config options) now = 0 ->
  let c := config options in
  let st := useCountdown options now in
  beats c nows (start c st) = st /\
  timeLeft st = 0 /\ isCompleted st = true /\ isActive st = autoStart_of c /\
  completions st = [] /\ running (intervals st) = ∅.
Proof.
  intros Hz c st.
  destruct (cd_mount_still options now Hz) as (Hs & Htl & Hco & Hac & Hcs).
  fold c st in Hs, Htl, Hco, Hac, Hcs.
  rewrite (cd_start_completed c st Hs Hco), (cd_beats_still c nows st Hs).
  repeat split; try assumption. apply Hs.
Qed.

Lemma countdown_from_zero_witness :
  Countdown.completions (@useCountdown string (Seconds 0) 0) = [] /\
  Countdown.isCompleted (@useCountdown string (Seconds 0) 0) = true.
Proof.
  destruct (countdown_from_zero_never_calls_onComplete (K := string) (Seconds 0) 0 [] eq_refl)
    as (_ & _ & Hc & _ & Hcs & _).
  split; [exact Hcs | exact Hc].
Defined.




End CountdownExtras.

(** X23. For a time left that is not negative, the days, hours, minutes and
    seconds shown add up to the whole seconds left, with hours below 24 and
    minutes and seconds below 60. *)
Theorem countdown_formatted_time_adds_up (timeLeft : Z) :
  0 <= timeLeft ->
  let f := Countdown.formattedTime timeLeft in
  Countdown.seconds_left timeLeft
  = ((Countdown.days f * 24 + Countdown.hours f) * 60 + Countdown.minutes f) * 60
    + Countdown.seconds f /\
  0 <= Countdown.days f /\
  0 <= Countdown.hours f < 24 /\
  0 <= Countdown.minutes f < 60 /\
  0 <= Countdown.seconds f < 60.
Proof.
  intros Hp. unfold Countdown.formattedTime, Countdown.seconds_left. cbn.
  rewrite !Z.rem_mod_nonneg by lia.
  Z.to_euclidean_division_equations; lia.
Qed.

Lemma countdown_formatted_time_witness :
  0 <= 3665000 /\
  Countdown.seconds_left 3665000
  = ((Countdown.days (Countdown.formattedTime 3665000) * 24
      + Countdown.hours (Countdown.formattedTime 3665000)) * 60
     + Countdown.minutes (Countdown.formattedTime 3665000)) * 60
    + Countdown.seconds (Countdown.formattedTime 3665000).
Proof.
  split; [lia | apply (countdown_formatted_time_adds_up 3665000); lia].
Defined.

(** ** [useAsync] *)

Section AsyncFacts.
Import Async.
Context {R A Fn : Type} `{EqDecision Fn}.
Variable no_args : A.
Implicit Types (st : state R A Fn) (fns : list Fn).

Lemma async_renders_started (immediate : option bool) (initialArgs : option A) fns :
  forall st prev,
    deps st = option_map (pair (default false immediate)) prev ->
    started (renders no_args immediate initialArgs fns st)
    = started st ++
      (if default false immediate
       then map (fun f => (f, default no_args initialArgs)) (fresh prev fns)
       else []).
Proof.
  induction fns as [|fn fns IH]; intros st prev Hd.
  - cbn. destruct (default false immediate); rewrite app_nil_r; reflexivity.
  - unfold renders in *. cbn [fold_left fresh]. unfold useAsync at 2.
    destruct (decide (prev = Some fn)) as [E|N].
    + rewrite decide_True by (rewrite Hd, E; reflexivity). apply IH, Hd.
    + rewrite decide_False.
      2:{ rewrite Hd. destruct prev; cbn; congruence. }
      destruct immediate as [[|]|]; cbn in IH |- *.
      * rewrite (IH _ (Some fn)) by reflexivity.
        cbn. rewrite <- app_assoc. reflexivity.
      * rewrite (IH _ (Some fn)) by reflexivity. reflexivity.
      * rewrite (IH _ (Some fn)) by reflexivity. reflexivity.
Qed.

Lemma async_fresh_same (f : Fn) (n : nat) : fresh (Some f) (repeat f n) = [].
Proof.
  induction n as [|n IH]; [reflexivity|].
  cbn. rewrite decide_True by reflexivity. exact IH.
Qed.
End AsyncFacts.

(** X24. With [immediate], the function is executed after the first render
    and again after every render that passes another function reference,
    each time with [initialArgs] (or no arguments); a reference that stays
    the same is executed once.  Without [immediate], rendering executes
    nothing. *)
Theorem async_immediate_executes_once_per_new_function
    {R A Fn : Type} `{EqDecision Fn} (no_args : A)
    (immediate : option bool) (initialArgs : option A) (fns : list Fn)
    (f : Fn) (n : nat) :
  Async.started (Async.renders (R := R) no_args immediate initialArgs fns Async.init)
  = (if default false immediate
     then map (fun g => (g, default no_args initialArgs)) (Async.fresh None fns)
     else []) /\
  Async.started
    (Async.renders (R := R) no_args (Some true) initialArgs (repeat f (S n)) Async.init)
  = [(f, default no_args initialArgs)].
Proof.
  split.
  - rewrite (async_renders_started no_args immediate initialArgs fns Async.init None)
      by reflexivity.
    reflexivity.
  - rewrite (async_renders_started no_args (Some true) initialArgs _ Async.init None)
      by reflexivity.
    cbn. rewrite decide_False by discriminate. rewrite async_fresh_same. reflexivity.
Qed.


(** ** [useCopyToClipboard] *)

Section ClipboardFacts.
Import Clipboard ClipboardTrace.

Lemma cb_copy_keeps_timer o b text now st n tm :
  Host.live (timers st) !! n = Some tm -> (n < Host.next_handle (timers st))%nat ->
  Host.live (timers (fst (copy o b text now st))) !! n = Some tm /\
  (n < Host.next_handle (timers (fst (copy o b text now st))))%nat.
Proof.
  intros Hl Hn. unfold copy, copy_begin, copy_end.
  destruct (String.eqb text ""); cbn; [auto|].
  destruct (attempt b); cbn; [auto|].
  destruct (resetAfterDelay_of o); cbn; [|auto].
  rewrite lookup_insert_ne by lia. split; [exact Hl | lia].
Qed.

Lemma cb_run_keeps_timer o ops : forall st n tm,
  Host.live (timers st) !! n = Some tm -> (n < Host.next_handle (timers st))%nat ->
  Host.live (timers (run o ops st)) !! n = Some tm.
Proof.
  induction ops as [|x ops IH]; intros st n tm Hl Hn; [exact Hl|].
  unfold run in *. cbn [fold_left]. destruct x as [b text now|]; cbn [step].
  - destruct (cb_copy_keeps_timer o b text now st n tm Hl Hn) as [Hl' Hn'].
    apply IH; assumption.
  - apply IH; assumption.
Qed.
End ClipboardFacts.

(** X26. [copy] resolves to [true] exactly when the text is not empty and
    the browser took it; the text is then the copied value, on the
    clipboard, with no error.  Otherwise the clipboard, the copied value
    and the timers are as before and the error is set; for an empty text
    the success flag and the loading flag are left as they were. *)
Theorem clipboard_copy_result_tells_what_happened
    (o : Clipboard.UseCopyToClipboardOptions) (b : Clipboard.browser)
    (text : string) (now : Z) (st : Clipboard.state) :
  let st' := fst (Clipboard.copy o b text now st) in
  (snd (Clipboard.copy o b text now st) = true <->
   text <> ""%string /\ Clipboard.attempt b = None) /\
  (snd (Clipboard.copy o b text now st) = true ->
   Clipboard.copiedValue st' = Some text /\ Clipboard.clipboard st' = Some text /\
   Clipboard.copied st' = true /\ Clipboard.error st' = None /\
   Clipboard.loading st' = false) /\
  (snd (Clipboard.copy o b text now st) = false ->
   Clipboard.copiedValue st' = Clipboard.copiedValue st /\
   Clipboard.clipboard st' = Clipboard.clipboard st /\
   Clipboard.timers st' = Clipboard.timers st /\
   Clipboard.error st' <> None) /\
  (text = ""%string ->
   Clipboard.copied st' = Clipboard.copied st /\
   Clipboard.loading st' = Clipboard.loading st /\
   Clipboard.error st' = Some "No text provided to copy"%string).
Proof.
  unfold Clipboard.copy, Clipboard.copy_begin, Clipboard.copy_end.
  destruct (String.eqb_spec text "") as [E|N]; cbn.
  - repeat split; try discriminate; tauto.
  - destruct (Clipboard.attempt b) as [m|]; cbn.
    + repeat split; try discriminate; try tauto. intros [_ H]. discriminate.
    + repeat split; try discriminate; tauto.
Qed.

Lemma clipboard_copy_result_witness :
  snd (Clipboard.copy (Clipboard.Options None None None) Clipboard.WriteResolves
         "a" 0 (Clipboard.init None)) = true /\
  Clipboard.clipboard
    (fst (Clipboard.copy (Clipboard.Options None None None) Clipboard.WriteResolves
            "a" 0 (Clipboard.init None))) = Some "a"%string.
Proof.
  destruct (clipboard_copy_result_tells_what_happened
              (Clipboard.Options None None None) Clipboard.WriteResolves
              "a" 0 (Clipboard.init None)) as (_ & H & _).
  split; [reflexivity|]. destruct (H eq_refl) as (_ & Hc & _). exact Hc.
Defined.

(** X27. The timer a successful copy arms is never cancelled, neither by
    later copies nor by [reset]: once the success duration has passed it
    fires, and it then clears the success flag and the error that a later
    copy has set, leaving the copied value and the clipboard. *)
Theorem clipboard_reset_timer_outlives_later_copies
    (o : Clipboard.UseCopyToClipboardOptions) (b : Clipboard.browser)
    (text : string) (now t : Z) (ops : list ClipboardTrace.op)
    (st : Clipboard.state) :
  Clipboard.resetAfterDelay_of o = true ->
  Clipboard.attempt b = None ->
  text <> ""%string ->
  now + Z.max 0 (Clipboard.successDuration_of o) <= t ->
  let st2 := ClipboardTrace.run o ops (fst (Clipboard.copy o b text now st)) in
  exists st3,
    Clipboard.fire (Host.next_handle (Clipboard.timers st)) t st2 = Some st3 /\
    Clipboard.copied st3 = false /\ Clipboard.error st3 = None /\
    Clipboard.copiedValue st3 = Clipboard.copiedValue st2 /\
    Clipboard.clipboard st3 = Clipboard.clipboard st2.
Proof.
  intros Hr Hb Ht Hd st2.
  assert (L : Host.live (Clipboard.timers st2) !! Host.next_handle (Clipboard.timers st)
              = Some (Host.Timer (now + Z.max 0 (Clipboard.successDuration_of o)) tt)).
  { apply cb_run_keeps_timer.
    - unfold Clipboard.copy, Clipboard.copy_begin, Clipboard.copy_end.
      destruct (String.eqb_spec text "") as [E|_]; [contradiction|].
      cbn. rewrite Hb, Hr. cbn. apply lookup_insert_eq.
    - unfold Clipboard.copy, Clipboard.copy_begin, Clipboard.copy_end.
      destruct (String.eqb_spec text "") as [E|_]; [contradiction|].
      cbn. rewrite Hb, Hr. cbn. lia. }
  unfold Clipboard.fire, Host.take. rewrite L. cbn [Host.due Host.action].
  destruct (Z.leb_spec (now + Z.max 0 (Clipboard.successDuration_of o)) t) as [_|]; [|lia].
  eexists. split; [reflexivity|]. cbn. auto.
Qed.

Lemma clipboard_reset_timer_witness :
  exists st3,
    Clipboard.fire 1%nat 2000
      (ClipboardTrace.run (Clipboard.Options None None None)
         [ClipboardTrace.DoCopy (Clipboard.ExecReturns false) "b" 1500]
         (fst (Clipboard.copy (Clipboard.Options None None None)
                 Clipboard.WriteResolves "a" 0 (Clipboard.init None))))
    = Some st3 /\ Clipboard.error st3 = None.
Proof.
  destruct (clipboard_reset_timer_outlives_later_copies
              (Clipboard.Options None None None) Clipboard.WriteResolves "a" 0 2000
              [ClipboardTrace.DoCopy (Clipboard.ExecReturns false) "b" 1500]
              (Clipboard.init None) eq_refl eq_refl ltac:(discriminate) ltac:(discriminate))
    as (st3 & Hf & _ & He & _).
  exists st3. split; [exact Hf | exact He].
Defined.
